(** * kumo-comic: the download engine ([kumo/engine/downloader.py])

    A shallow embedding of [ImageDownloader] and of the helpers it calls
    ([kumo/utils/helpers.py], [kumo/exceptions.py], [kumo/core/models.py]),
    followed by the properties of the engine.

    Conventions.
    - Python [int] is [Z]; [float] seconds are rationals [Q] (only sums,
      products and comparisons with [0.0] are used).
    - [Dict[str, str]] is [gmap string string].
    - A coroutine is a function of an explicit [State] that yields a result
      and the next state.  Everything the coroutine awaits from outside (the
      network, the file system, the random generator) is answered by a
      [World]; what it does to the outside is appended to an event log.
    - A Python exception is a value of [PyExc]; [except Exception] catches
      the classes deriving from [Exception] only. *)

From Stdlib Require Import QArith Ascii String.
From stdpp Require Import base option list strings gmap pretty.

Open Scope string_scope.
Open Scope list_scope.
Open Scope Z_scope.

(** ** Exceptions ([kumo/exceptions.py] and the builtins that reach the engine) *)

Inductive ExcClass :=
| Exception_        (* plain [Exception(msg)], built by the engine itself *)
| ClientError       (* aiohttp.ClientError: connection level failures *)
| TimeoutError      (* asyncio.TimeoutError *)
| OSError           (* file system failures *)
| ValueError
| AttributeError
| CancelledError.   (* derives from BaseException, not from Exception *)

Record PyExc := mkExc { exc_class : ExcClass; exc_args : string }.

(** [isinstance(e, Exception)] *)
Definition isinstance_Exception (e : PyExc) : bool :=
  match exc_class e with
  | CancelledError => false
  | _ => true
  end.

(** [str(e)] *)
Definition str_exc (e : PyExc) : string := exc_args e.

Module TaskDownloadError.
Record t := mk {
  url : string;
  original_errors : list PyExc;
  last_error : option PyExc;
  attempts : Z;
  message : string
}.

(** [errors[-1] if errors else None] *)
Definition last_or_None (errors : list PyExc) : option PyExc := last errors.

(** [TaskDownloadError.__init__(self, url, errors)] *)
Definition __init__ (url : string) (errors : list PyExc) : t :=
  let last_error := last_or_None errors in
  let attempts := Z.of_nat (length errors) in
  let message := "Failed to download " +:+ url +:+ " after " +:+ pretty attempts +:+ " attempts" in
  let message :=
    match last_error with
    | Some e => message +:+ ": " +:+ str_exc e
    | None => message
    end in
  mk url errors last_error attempts message.
End TaskDownloadError.

(** ** Results of calls *)

(** What a call into the outside world, or into a hook, comes back with. *)
Inductive Outcome (A : Type) :=
| Returns (a : A)
| Raises (e : PyExc).
Arguments Returns {A} a.
Arguments Raises {A} e.

(** What a coroutine of the engine comes back with when it is run on its
    own.  [Hang] is a coroutine suspended at the semaphore: [acquire] found
    no free slot and the coroutine waits for another task to release one.
    A run of that coroutine alone stops there, since nothing else runs that
    could release; in the event loop ([EventLoop] below) the coroutine stays
    waiting and enters as soon as a slot is free. *)
Inductive Res (A : Type) :=
| Ret (a : A)
| Raise (e : PyExc)
| Hang.
Arguments Ret {A} a.
Arguments Raise {A} e.
Arguments Hang {A}.

(** ** Data model ([kumo/core/models.py]) *)

Record DownloadTask := {
  url : string;
  save_path : string;
  headers : gmap string string;
  cookies : gmap string string;
  referer : string;
  (** [on_success()], as overridden by a subclass: what the call made during
      attempt number [attempt] does. *)
  on_success : nat -> Outcome unit;
  (** [on_error(error)] *)
  on_error : TaskDownloadError.t -> Outcome unit
}.

(** The hooks of the base class: both [pass]. *)
Definition default_on_success : nat -> Outcome unit := fun _ => Returns tt.
Definition default_on_error : TaskDownloadError.t -> Outcome unit := fun _ => Returns tt.

(** The arguments of one [session.get(...)]. *)
Record Request := {
  req_url : string;
  req_headers : gmap string string;
  req_cookies : option (gmap string string);
  req_timeout : Z
}.

(** [urllib.parse.ParseResult], the two fields the engine reads. *)
Record ParseResult := { scheme : string; netloc : string }.

(** ** The engine's instance state *)

Record ImageDownloader := {
  max_concurrent : Z;
  delay_range : option (Q * Q);
  max_retries : Z;
  default_headers : gmap string string;
  _timeout : Z;
  (** the [_value] of [asyncio.Semaphore(max_concurrent)] *)
  _semaphore : Z;
  __total_downloaded : Z;
  __total_failed : Z
}.

(** ** The outside world and the event log *)

Record World := {
  (** the successive results of [random.random()], each in [0, 1) *)
  random : nat -> Q;
  (** [save_path.parent.mkdir(parents=True, exist_ok=True)] *)
  mkdir : string -> Outcome unit;
  (** [session.get(...)] entered during attempt [attempt]: the status *)
  session_get : nat -> Request -> Outcome Z;
  (** [response.read()] during attempt [attempt] *)
  response_read : nat -> Outcome string;
  (** [aiofiles.open(path, 'wb')] and [f.write(content)] during [attempt] *)
  file_write : nat -> string -> string -> Outcome unit
}.

Inductive Event :=
| EvAcquire                          (* a slot of the semaphore is taken *)
| EvRelease                          (* and given back *)
| EvMkdir (path : string)            (* [mkdir] is called for the parent of [path] *)
| EvAttempt (attempt : nat)          (* iteration [attempt] of the retry loop starts *)
| EvSleep (delay : Q)                (* [asyncio.sleep(delay)] *)
| EvGet (req : Request)              (* [session.get] is called *)
| EvWrite (path content : string)    (* the body has been written to [path] *)
| EvOnSuccess (task_url : string)    (* [task.on_success()] is called *)
| EvOnError (error : TaskDownloadError.t).   (* [task.on_error(error)] is called *)

Record State := {
  self : ImageDownloader;
  (** the local [errors] of the running [download_task] *)
  errors : list PyExc;
  (** the events so far, newest first *)
  log : list Event;
  (** how many random numbers have been drawn *)
  draws : nat
}.

(** The events in the order they happened. *)
Definition events (s : State) : list Event := rev (log s).

(** ** The coroutine monad *)

Definition M (A : Type) : Type := State -> Res A * State.

Definition ret {A} (a : A) : M A := fun s => (Ret a, s).
Definition raise {A} (e : PyExc) : M A := fun s => (Raise e, s).

Definition bind {A B} (m : M A) (k : A -> M B) : M B :=
  fun s =>
    match m s with
    | (Ret a, s') => k a s'
    | (Raise e, s') => (Raise e, s')
    | (Hang, s') => (Hang, s')
    end.

Declare Scope py_scope.
Notation "x ← y ; z" := (bind y (fun x => z))
  (at level 20, y at level 100, z at level 200, only parsing) : py_scope.
Notation "x ;; z" := (bind x (fun _ => z))
  (at level 100, z at level 200, only parsing, right associativity) : py_scope.
Open Scope py_scope.

Definition gets {A} (f : State -> A) : M A := fun s => (Ret (f s), s).
Definition modify (f : State -> State) : M unit := fun s => (Ret tt, f s).

Definition lift {A} (o : Outcome A) : M A :=
  match o with
  | Returns a => ret a
  | Raises e => raise e
  end.

(** [try: body / except Exception as e: handler(e)] *)
Definition try_except {A} (body : M A) (handler : PyExc -> M A) : M A :=
  fun s =>
    match body s with
    | (Raise e, s') =>
        if isinstance_Exception e then handler e s' else (Raise e, s')
    | r => r
    end.

(** [try: body / finally: cleanup] *)
Definition try_finally {A} (body : M A) (cleanup : M unit) : M A :=
  fun s =>
    match body s with
    | (Hang, s') => (Hang, s')
    | (r, s') =>
        match cleanup s' with
        | (Ret _, s'') => (r, s'')
        | (Raise e, s'') => (Raise e, s'')
        | (Hang, s'') => (Hang, s'')
        end
    end.

(** State updates *)

Definition set_self (f : ImageDownloader -> ImageDownloader) (s : State) : State :=
  {| self := f (self s); errors := errors s; log := log s; draws := draws s |}.

Definition set_errors (f : list PyExc -> list PyExc) (s : State) : State :=
  {| self := self s; errors := f (errors s); log := log s; draws := draws s |}.

Definition push_event (ev : Event) (s : State) : State :=
  {| self := self s; errors := errors s; log := ev :: log s; draws := draws s |}.

Definition next_draw (s : State) : State :=
  {| self := self s; errors := errors s; log := log s; draws := S (draws s) |}.

Definition emit (ev : Event) : M unit := modify (push_event ev).

Definition add_semaphore (d : Z) (dl : ImageDownloader) : ImageDownloader :=
  {| max_concurrent := max_concurrent dl; delay_range := delay_range dl;
     max_retries := max_retries dl; default_headers := default_headers dl;
     _timeout := _timeout dl; _semaphore := _semaphore dl + d;
     __total_downloaded := __total_downloaded dl;
     __total_failed := __total_failed dl |}.

Definition add_downloaded (d : Z) (dl : ImageDownloader) : ImageDownloader :=
  {| max_concurrent := max_concurrent dl; delay_range := delay_range dl;
     max_retries := max_retries dl; default_headers := default_headers dl;
     _timeout := _timeout dl; _semaphore := _semaphore dl;
     __total_downloaded := __total_downloaded dl + d;
     __total_failed := __total_failed dl |}.

Definition add_failed (d : Z) (dl : ImageDownloader) : ImageDownloader :=
  {| max_concurrent := max_concurrent dl; delay_range := delay_range dl;
     max_retries := max_retries dl; default_headers := default_headers dl;
     _timeout := _timeout dl; _semaphore := _semaphore dl;
     __total_downloaded := __total_downloaded dl;
     __total_failed := __total_failed dl + d |}.

(** ** [kumo/utils/helpers.py] *)

(** [random.uniform(a, b)] is [a + (b - a) * random()].  The arithmetic is
    exact here, where Python rounds to binary64 (and overflows for ranges
    wider than the largest float): [uniform lo hi u] names the number
    [random.uniform(lo, hi)] returns for the draw [u], and the properties
    below say which call produced a pause, never how long it is. *)
Definition uniform (a b u : Q) : Q := (a + (b - a) * u)%Q.

(** [async def random_delay(min_seconds, max_seconds)] *)
Definition random_delay (w : World) (min_seconds max_seconds : Q) : M unit :=
  if Qle_bool max_seconds 0 then ret tt
  else
    k ← gets draws;
    modify next_draw ;;
    let delay := uniform min_seconds max_seconds (random w k) in
    emit (EvSleep delay).

(** [await maybe_coroutine(func, ...)]: call the hook and, when what it
    returns is awaitable, await it; either way the caller sees the hook
    return or raise. *)
Definition maybe_coroutine (result : Outcome unit) : M unit := lift result.

(** ** [urllib.parse.urlparse]

    The engine reads [scheme] and [netloc] of [urlparse(task.referer)].  The
    function belongs to the Python library, so the engine is defined over
    any [urlparse] (the variable of section [Engine]).  [urlparse_ascii] is
    the instance used for concrete runs: the scheme and netloc steps of
    CPython's [urlsplit] (3.12) on a URL of ASCII characters: the C0
    controls and spaces at the left are stripped, tabs and newlines are
    dropped, the scheme and the netloc are cut out, and a netloc with one
    bracket and not the other is refused.  Left out are the NFKC check of
    the netloc, which does nothing on ASCII, and the validation of the host
    between a pair of brackets (an IPv6 literal): the function is not to be
    used on a URL whose netloc has both brackets. *)

Definition is_ascii_alpha (c : ascii) : bool :=
  let n := nat_of_ascii c in
  ((65 <=? n)%nat && (n <=? 90)%nat) || ((97 <=? n)%nat && (n <=? 122)%nat).

Definition is_scheme_char (c : ascii) : bool :=
  let n := nat_of_ascii c in
  is_ascii_alpha c || ((48 <=? n)%nat && (n <=? 57)%nat)
  || (n =? 43)%nat || (n =? 45)%nat || (n =? 46)%nat.

Definition lower_ascii (c : ascii) : ascii :=
  let n := nat_of_ascii c in
  if ((65 <=? n)%nat && (n <=? 90)%nat) then ascii_of_nat (n + 32) else c.

Fixpoint str_lower (s : string) : string :=
  match s with
  | EmptyString => EmptyString
  | String c r => String (lower_ascii c) (str_lower r)
  end.

Fixpoint str_forallb (p : ascii -> bool) (s : string) : bool :=
  match s with
  | EmptyString => true
  | String c r => p c && str_forallb p r
  end.

Fixpoint str_contains (x : ascii) (s : string) : bool :=
  match s with
  | EmptyString => false
  | String c r => Ascii.eqb x c || str_contains x r
  end.

(** [url.partition(':')] when the colon is there *)
Fixpoint split_colon (s : string) : option (string * string) :=
  match s with
  | EmptyString => None
  | String c r =>
      if Ascii.eqb c ":" then Some (EmptyString, r)
      else
        match split_colon r with
        | Some (a, b) => Some (String c a, b)
        | None => None
        end
  end.

(** [_splitnetloc(url, 2)]: up to the first of [/], [?], [#] *)
Fixpoint take_netloc (s : string) : string :=
  match s with
  | EmptyString => EmptyString
  | String c r =>
      if str_contains c "/?#" then EmptyString else String c (take_netloc r)
  end.

(** The characters stripped from the left: the C0 controls and the space *)
Definition is_c0_or_space (c : ascii) : bool := (nat_of_ascii c <=? 32)%nat.

(** The characters dropped wherever they stand: tab, line feed, carriage
    return *)
Definition is_unsafe_byte (c : ascii) : bool :=
  let n := nat_of_ascii c in
  (n =? 9)%nat || (n =? 10)%nat || (n =? 13)%nat.

(** [url.lstrip(chars)] *)
Fixpoint str_lstrip (p : ascii -> bool) (s : string) : string :=
  match s with
  | EmptyString => EmptyString
  | String c r => if p c then str_lstrip p r else s
  end.

(** [url.replace(b, "")] for every [b] of [p] *)
Fixpoint str_remove (p : ascii -> bool) (s : string) : string :=
  match s with
  | EmptyString => EmptyString
  | String c r => if p c then str_remove p r else String c (str_remove p r)
  end.

Definition urlparse_ascii (url : string) : Outcome ParseResult :=
  let url := str_remove is_unsafe_byte (str_lstrip is_c0_or_space url) in
  let '(sch, rest) :=
    match split_colon url with
    | Some (String c pre, post) =>
        if is_ascii_alpha c && str_forallb is_scheme_char (String c pre)
        then (str_lower (String c pre), post)
        else (EmptyString, url)
    | _ => (EmptyString, url)
    end in
  let loc :=
    match rest with
    | String "/" (String "/" r) => take_netloc r
    | _ => EmptyString
    end in
  if xorb (str_contains "[" loc) (str_contains "]" loc)
  then Raises (mkExc ValueError "Invalid IPv6 URL")
  else Returns {| scheme := sch; netloc := loc |}.

(** ** [kumo/engine/downloader.py] *)

(** [ImageDownloader.__init__]; [asyncio.Semaphore(value)] refuses a
    negative value. *)
Definition __init__ (max_concurrent : Z) (delay_range : option (Q * Q))
    (max_retries : Z) (timeout : Z)
    (default_headers : option (gmap string string)) : Outcome ImageDownloader :=
  if max_concurrent <? 0
  then Raises (mkExc ValueError "Semaphore initial value must be >= 0")
  else Returns {|
    max_concurrent := max_concurrent;
    delay_range := delay_range;
    max_retries := max_retries;
    default_headers := default ∅ default_headers;
    _timeout := timeout;
    _semaphore := max_concurrent;
    __total_downloaded := 0;
    __total_failed := 0 |}.

(** [ImageDownloader.stats] *)
Definition stats (dl : ImageDownloader) : gmap string Z :=
  {[ "downloaded" := __total_downloaded dl;
     "failed" := __total_failed dl;
     "total" := __total_downloaded dl + __total_failed dl ]}.

(** [ImageDownloader.timeout], a property with a getter only *)
Definition timeout (dl : ImageDownloader) : Z := _timeout dl.

(** What the class [ImageDownloader] binds a name to. *)
Inductive ClassAttr :=
| Property (has_setter : bool)
| Function.

Definition ImageDownloader_class (name : string) : option ClassAttr :=
  if bool_decide (name = "stats") then Some (Property false)
  else if bool_decide (name = "timeout") then Some (Property false)
  else if bool_decide (name ∈ ["__init__"; "set_timeout"; "_build_headers";
                               "download_task"; "download_tasks"])
  then Some Function
  else None.

(** The instance [__dict__], for the integer attributes of the model. *)
Definition store_int (name : string) (value : Z) (dl : ImageDownloader) : ImageDownloader :=
  {| max_concurrent := if bool_decide (name = "max_concurrent") then value else max_concurrent dl;
     delay_range := delay_range dl;
     max_retries := if bool_decide (name = "max_retries") then value else max_retries dl;
     default_headers := default_headers dl;
     _timeout := if bool_decide (name = "_timeout") then value else _timeout dl;
     _semaphore := _semaphore dl;
     __total_downloaded := __total_downloaded dl;
     __total_failed := __total_failed dl |}.

(** [self.<name> = value]: a property found on the class takes the
    assignment; one without a setter raises [AttributeError].  Anything else
    is stored on the instance. *)
Definition setattr (name : string) (value : Z) : M unit :=
  match ImageDownloader_class name with
  | Some (Property false) =>
      raise (mkExc AttributeError
               ("property '" +:+ name +:+ "' of 'ImageDownloader' object has no setter"))
  | _ => modify (set_self (store_int name value))
  end.

(** [ImageDownloader.set_timeout] *)
Definition set_timeout (timeout : Z) : M unit := setattr "timeout" timeout.

(** Loop control out of one iteration of [for attempt in range(...)] *)
Inductive LoopCtl :=
| Next                 (* [continue], or the end of the body *)
| Break
| Return (b : bool).

Fixpoint for_range (idxs : list nat) (body : nat -> M LoopCtl) : M (option bool) :=
  match idxs with
  | [] => ret None
  | i :: rest =>
      c ← body i;
      match c with
      | Next => for_range rest body
      | Break => ret None
      | Return b => ret (Some b)
      end
  end.

(** [async with self._semaphore: body].  [Semaphore.acquire] takes a unit
    when the value is positive and suspends the caller otherwise, until a
    [release] wakes it up; the suspension is the answer [Hang], and the
    retry after a release is the step [step_enter] of the event loop. *)
Definition acquire : M unit :=
  fun s =>
    if 0 <? _semaphore (self s)
    then (Ret tt, push_event EvAcquire (set_self (add_semaphore (-1)) s))
    else (Hang, s).

Definition release : M unit :=
  modify (set_self (add_semaphore 1)) ;; emit EvRelease.

Definition async_with_semaphore {A} (body : M A) : M A :=
  acquire ;; try_finally body release.

Definition append_error (e : PyExc) : M unit :=
  modify (set_errors (fun es => es ++ [e])).

Section Engine.

Variable urlparse : string -> Outcome ParseResult.

(** [ImageDownloader._build_headers] *)
Definition _build_headers (dl : ImageDownloader) (task : DownloadTask)
    : Outcome (gmap string string) :=
  let headers0 := default_headers dl in
  let headers1 := headers task ∪ headers0 in
  if bool_decide (referer task = "") then Returns headers1
  else
    let headers2 := <["Referer" := referer task]> headers1 in
    match urlparse (referer task) with
    | Raises e => Raises e
    | Returns parsed =>
        Returns (<["Origin" := scheme parsed +:+ "://" +:+ netloc parsed]> headers2)
    end.

(** The arguments the engine passes to [session.get]. *)
Definition request (dl : ImageDownloader) (task : DownloadTask)
    (hs : gmap string string) : Request :=
  {| req_url := url task;
     req_headers := hs;
     req_cookies := if bool_decide (cookies task = ∅) then None
                    else Some (cookies task);
     req_timeout := timeout dl |}.

(** [if self.delay_range: await random_delay(lo, hi)] on the pair;
    a pair is always truthy, [None] never. *)
Definition pace (w : World) : M unit :=
  dr ← gets (fun s => delay_range (self s));
  match dr with
  | Some (lo, hi) => random_delay w lo hi
  | None => ret tt
  end.

(** The block under [async with session.get(...) as response]. *)
Definition with_response (w : World) (task : DownloadTask) (attempt : nat)
    (req : Request) : M LoopCtl :=
  status ← lift (session_get w attempt req);
  if status =? 200 then
    content ← lift (response_read w attempt);
    lift (file_write w attempt (save_path task) content) ;;
    emit (EvWrite (save_path task) content) ;;
    modify (set_self (add_downloaded 1)) ;;
    emit (EvOnSuccess (url task)) ;;
    maybe_coroutine (on_success task attempt) ;;
    ret (Return true)
  else if status =? 429 then
    append_error (mkExc Exception_ "HTTP 429: Rate limited") ;;
    random_delay w 5 10 ;;
    ret Next
  else if status =? 403 then
    append_error (mkExc Exception_ "HTTP 403: Forbidden") ;;
    random_delay w 2 4 ;;
    ret Next
  else ret Next.

(** The body of the [try] of one attempt. *)
Definition attempt_try (w : World) (task : DownloadTask) (attempt : nat) : M LoopCtl :=
  pace w ;;
  dl ← gets self;
  hs ← lift (_build_headers dl task);
  emit (EvGet (request dl task hs)) ;;
  with_response w task attempt (request dl task hs).

(** The [except Exception as e] of one attempt. *)
Definition attempt_except (w : World) (attempt : nat) (e : PyExc) : M LoopCtl :=
  append_error e ;;
  mr ← gets (fun s => max_retries (self s));
  if Z.of_nat attempt <? mr - 1 then
    random_delay w 2 5 ;;
    ret Next
  else ret Break.

(** One iteration of the [for]. *)
Definition attempt_body (w : World) (task : DownloadTask) (attempt : nat) : M LoopCtl :=
  emit (EvAttempt attempt) ;;
  try_except (attempt_try w task attempt) (attempt_except w attempt).

(** What follows the loop when no attempt has returned. *)
Definition report_failure (task : DownloadTask) : M bool :=
  modify (set_self (add_failed 1)) ;;
  errs ← gets errors;
  let error := TaskDownloadError.__init__ (url task) errs in
  emit (EvOnError error) ;;
  maybe_coroutine (on_error task error) ;;
  ret false.

(** What [download_task] does while it holds its slot. *)
Definition task_body (w : World) (task : DownloadTask) : M bool :=
  emit (EvMkdir (save_path task)) ;;
  lift (mkdir w (save_path task)) ;;
  mr ← gets (fun s => max_retries (self s));
  r ← for_range (seq 0 (Z.to_nat mr)) (attempt_body w task);
  match r with
  | Some b => ret b
  | None => report_failure task
  end.

(** [ImageDownloader.download_task] *)
Definition download_task (w : World) (task : DownloadTask) : M bool :=
  modify (set_errors (fun _ => [])) ;;
  async_with_semaphore (task_body w task).

(** [asyncio.gather] with [return_exceptions=True].  The coroutines
    are run to completion one after the other, in the order of the list:
    one of the schedules of the event loop (see [EventLoop]).  Each task
    comes with the world that answers it.  A coroutine that is suspended at
    the semaphore when all the earlier ones have finished has nobody left in
    the batch to release a slot: the batch does not finish. *)
Fixpoint gather (jobs : list (World * DownloadTask)) : M (list (Outcome bool)) :=
  match jobs with
  | [] => ret []
  | (w, task) :: rest =>
      fun s =>
        match download_task w task s with
        | (Ret b, s') => (rs ← gather rest; ret (Returns b :: rs)) s'
        | (Raise e, s') => (rs ← gather rest; ret (Raises e :: rs)) s'
        | (Hang, s') => (Hang, s')
        end
  end.

(** [results.count(True)] *)
Fixpoint count_True (results : list (Outcome bool)) : Z :=
  match results with
  | [] => 0
  | Returns true :: rest => 1 + count_True rest
  | _ :: rest => count_True rest
  end.

(** [ImageDownloader.download_tasks] *)
Definition download_tasks (jobs : list (World * DownloadTask)) : M (Z * Z) :=
  results ← gather jobs;
  let downloaded_count := count_True results in
  let failed_count := Z.of_nat (length jobs) - downloaded_count in
  modify (set_self (add_downloaded downloaded_count)) ;;
  modify (set_self (add_failed failed_count)) ;;
  ret (downloaded_count, failed_count).

End Engine.

(** ** The event loop

    [download_tasks] hands one coroutine per task to [asyncio.gather], and
    the event loop runs them interleaved: one coroutine runs until it
    awaits, then any of them may go on.  A coroutine of [download_task]
    stands in front of [async with self._semaphore], or inside it (before
    [mkdir], in the [for], or at the end of the block), or it is done.  Each
    step below runs one piece of the engine's own code on the state the
    coroutines share: [acquire], the opening of [task_body], one
    [attempt_body], [report_failure], [release].  The engine awaits inside
    an attempt as well (the sleeps, the request, the write), so the real
    loop can switch there too; the semaphore is touched by [acquire] and
    [release] only, and these are steps of their own.

    [errors] is a local variable of each coroutine: the loop keeps it with
    the coroutine and puts it in place before the coroutine runs. *)

(** The first lines of [task_body]: [mkdir], then the evaluation of
    [range(self.max_retries)]. *)
Definition enter_directory (w : World) (task : DownloadTask) : M Z :=
  emit (EvMkdir (save_path task)) ;;
  lift (mkdir w (save_path task)) ;;
  gets (fun s => max_retries (self s)).


(** A result that is not a suspension. *)
Definition finished {A} (r : Res A) : option (Outcome A) :=
  match r with
  | Ret a => Some (Returns a)
  | Raise e => Some (Raises e)
  | Hang => None
  end.

Module EventLoop.

Inductive Coroutine :=
| Waiting (job : World * DownloadTask)
    (* in front of [async with self._semaphore] *)
| Entered (job : World * DownloadTask)
    (* inside, before [mkdir] *)
| Looping (job : World * DownloadTask) (errs : list PyExc) (todo : list nat)
    (* inside, in the [for] with the attempts [todo] to come; after the
       loop when [todo] is empty *)
| Leaving (job : World * DownloadTask) (result : Outcome bool)
    (* inside, at the end of the block, with the result of the body *)
| Done (result : Outcome bool).

Record Loop := {
  shared : State;
  coroutines : list Coroutine
}.

(** The coroutine is inside [async with self._semaphore]. *)
Definition inside (c : Coroutine) : bool :=
  match c with
  | Entered _ | Looping _ _ _ | Leaving _ _ => true
  | Waiting _ | Done _ => false
  end.

(** How many coroutines are inside. *)
Fixpoint count_inside (cs : list Coroutine) : Z :=
  match cs with
  | [] => 0
  | c :: rest => (if inside c then 1 else 0) + count_inside rest
  end.

Definition holders (l : Loop) : Z := count_inside (coroutines l).

(** Where the coroutine stands after [enter_directory]. *)
Definition after_mkdir (job : World * DownloadTask) (r : Res Z) : option Coroutine :=
  match r with
  | Ret mr => Some (Looping job [] (seq 0 (Z.to_nat mr)))
  | Raise e => Some (Leaving job (Raises e))
  | Hang => None
  end.

(** Where it stands after one [attempt_body]: [continue] goes to the next
    index, [break] to the code after the loop, [return] and an exception to
    the end of the block. *)
Definition after_attempt (job : World * DownloadTask) (errs : list PyExc)
    (todo : list nat) (r : Res LoopCtl) : option Coroutine :=
  match r with
  | Ret Next => Some (Looping job errs todo)
  | Ret Break => Some (Looping job errs [])
  | Ret (Return b) => Some (Leaving job (Returns b))
  | Raise e => Some (Leaving job (Raises e))
  | Hang => None
  end.

(** The state the coroutine runs on: the shared one, with its own [errors]. *)
Definition with_errors (errs : list PyExc) (s : State) : State :=
  set_errors (fun _ => errs) s.

Section Steps.
Variable urlparse : string -> Outcome ParseResult.

Inductive step : Loop -> Loop -> Prop :=
| step_enter l i job s' :
    coroutines l !! i = Some (Waiting job) ->
    acquire (shared l) = (Ret tt, s') ->
    step l {| shared := s'; coroutines := <[i := Entered job]> (coroutines l) |}
| step_mkdir l i job r s' next :
    coroutines l !! i = Some (Entered job) ->
    enter_directory (fst job) (snd job) (with_errors [] (shared l)) = (r, s') ->
    after_mkdir job r = Some next ->
    step l {| shared := s'; coroutines := <[i := next]> (coroutines l) |}
| step_attempt l i job errs a todo r s' next :
    coroutines l !! i = Some (Looping job errs (a :: todo)) ->
    attempt_body urlparse (fst job) (snd job) a (with_errors errs (shared l)) = (r, s') ->
    after_attempt job (errors s') todo r = Some next ->
    step l {| shared := s'; coroutines := <[i := next]> (coroutines l) |}
| step_report l i job errs r s' result :
    coroutines l !! i = Some (Looping job errs []) ->
    report_failure (snd job) (with_errors errs (shared l)) = (r, s') ->
    finished r = Some result ->
    step l {| shared := s'; coroutines := <[i := Leaving job result]> (coroutines l) |}
| step_leave l i job result s' :
    coroutines l !! i = Some (Leaving job result) ->
    release (shared l) = (Ret tt, s') ->
    step l {| shared := s'; coroutines := <[i := Done result]> (coroutines l) |}.

End Steps.

(** The state in which [gather] has created the coroutines. *)
Definition start (s : State) (jobs : list (World * DownloadTask)) : Loop :=
  {| shared := s; coroutines := map Waiting jobs |}.

(** The semaphore and the coroutines inside add up to [c]. *)
Definition balanced (c : Z) (l : Loop) : Prop :=
  0 <= _semaphore (self (shared l)) /\
  _semaphore (self (shared l)) + holders l = c.

Definition is_done (c : Coroutine) : Prop :=
  match c with
  | Done _ => True
  | _ => False
  end.

End EventLoop.


Definition fresh_state (dl : ImageDownloader) : State :=
  {| self := dl; errors := []; log := []; draws := 0%nat |}.

(** ** Concrete engines, tasks and worlds *)

(** An engine built with the defaults of [__init__], but [max_retries]. *)
Definition engine (max_retries : Z) : ImageDownloader :=
  {| max_concurrent := 3; delay_range := Some (1%Q, 3%Q);
     max_retries := max_retries; default_headers := ∅; _timeout := 60;
     _semaphore := 3; __total_downloaded := 0; __total_failed := 0 |}.


(** What [ImageDownloader(max_concurrent=0)] builds. *)
Definition closed_engine : ImageDownloader :=
  {| max_concurrent := 0; delay_range := Some (1%Q, 3%Q);
     max_retries := 3; default_headers := ∅; _timeout := 60;
     _semaphore := 0; __total_downloaded := 0; __total_failed := 0 |}.


Definition plain_task : DownloadTask :=
  {| url := "https://cdn.example.com/001.jpg"; save_path := "out/ch1/001.jpg";
     headers := ∅; cookies := ∅; referer := "";
     on_success := default_on_success; on_error := default_on_error |}.

(** A task whose [on_success] override raises. *)
Definition task_raising_on_success : DownloadTask :=
  {| url := "https://cdn.example.com/001.jpg"; save_path := "out/ch1/001.jpg";
     headers := ∅; cookies := ∅; referer := "";
     on_success := fun _ => Raises (mkExc ValueError "hook failed");
     on_error := default_on_error |}.

(** A task whose [on_error] override raises. *)
Definition task_raising_on_error : DownloadTask :=
  {| url := "https://cdn.example.com/001.jpg"; save_path := "out/ch1/001.jpg";
     headers := ∅; cookies := ∅; referer := "";
     on_success := default_on_success;
     on_error := fun _ => Raises (mkExc ValueError "hook failed") |}.

(** The server answers every request with [status]; the file system works. *)
Definition world_status (status : Z) : World :=
  {| random := fun _ => (1 # 2)%Q;
     mkdir := fun _ => Returns tt;
     session_get := fun _ _ => Returns status;
     response_read := fun _ => Returns "bytes";
     file_write := fun _ _ _ => Returns tt |}.

(** Every connection fails. *)
Definition world_offline : World :=
  {| random := fun _ => (1 # 2)%Q;
     mkdir := fun _ => Returns tt;
     session_get := fun i _ => Raises (mkExc ClientError ("connection reset " +:+ pretty i));
     response_read := fun _ => Returns "bytes";
     file_write := fun _ _ _ => Returns tt |}.

(** The parent directory cannot be created. *)
Definition world_no_parent : World :=
  {| random := fun _ => (1 # 2)%Q;
     mkdir := fun _ => Raises (mkExc OSError "[Errno 13] Permission denied");
     session_get := fun _ _ => Returns 200;
     response_read := fun _ => Returns "bytes";
     file_write := fun _ _ _ => Returns tt |}.



(** Observations on a log *)

Definition is_attempt (ev : Event) : bool :=
  match ev with EvAttempt _ => true | _ => false end.
Definition is_on_success (ev : Event) : bool :=
  match ev with EvOnSuccess _ => true | _ => false end.
Definition is_on_error (ev : Event) : bool :=
  match ev with EvOnError _ => true | _ => false end.

Definition count_events (p : Event -> bool) (s : State) : nat :=
  length (List.filter p (log s)).

(** The number of attempts made so far. *)
Definition attempts_made (s : State) : nat := count_events is_attempt s.
(** The number of times each hook has been called. *)
Definition on_success_calls (s : State) : nat := count_events is_on_success s.
Definition on_error_calls (s : State) : nat := count_events is_on_error s.

(** The errors handed to [on_error], oldest call first. *)
Fixpoint on_error_args (lg : list Event) : list TaskDownloadError.t :=
  match lg with
  | [] => []
  | EvOnError err :: older => err :: on_error_args older
  | _ :: older => on_error_args older
  end.
Definition reported (s : State) : list TaskDownloadError.t :=
  rev (on_error_args (log s)).

(** ** Statements the engine is compared with *)

(** The merge of the specification: the engine's default headers,
    overridden by the task's own. *)
Definition merged_header (dl : ImageDownloader) (task : DownloadTask)
    (k : string) : option string :=
  match headers task !! k with
  | Some v => Some v
  | None => default_headers dl !! k
  end.

(** The header the specification expects under key [k]: the merge, and on
    top of it [Referer] and [Origin] exactly when the referer is not empty. *)
Definition expected_header (urlparse : string -> Outcome ParseResult)
    (dl : ImageDownloader) (task : DownloadTask) (k : string) : option string :=
  if bool_decide (referer task = "") then merged_header dl task k
  else if bool_decide (k = "Referer") then Some (referer task)
  else if bool_decide (k = "Origin") then
    match urlparse (referer task) with
    | Returns parsed => Some (scheme parsed +:+ "://" +:+ netloc parsed)
    | Raises _ => None
    end
  else merged_header dl task k.

Definition with_referer (r : string) (task : DownloadTask) : DownloadTask :=
  {| url := url task; save_path := save_path task; headers := headers task;
     cookies := cookies task; referer := r;
     on_success := on_success task; on_error := on_error task |}.

(** Attempt number [i] of [task] ends in the exception [e] before any hook
    is reached: while the headers are built, on the connection, while the
    body is read, or while the file is written. *)
Inductive attempt_raises (urlparse : string -> Outcome ParseResult)
    (dl : ImageDownloader) (w : World) (task : DownloadTask)
    (i : nat) (e : PyExc) : Prop :=
| raises_in_headers :
    _build_headers urlparse dl task = Raises e ->
    attempt_raises urlparse dl w task i e
| raises_in_get hs :
    _build_headers urlparse dl task = Returns hs ->
    session_get w i (request dl task hs) = Raises e ->
    attempt_raises urlparse dl w task i e
| raises_in_read hs :
    _build_headers urlparse dl task = Returns hs ->
    session_get w i (request dl task hs) = Returns 200 ->
    response_read w i = Raises e ->
    attempt_raises urlparse dl w task i e
| raises_in_write hs content :
    _build_headers urlparse dl task = Returns hs ->
    session_get w i (request dl task hs) = Returns 200 ->
    response_read w i = Returns content ->
    file_write w i (save_path task) content = Raises e ->
    attempt_raises urlparse dl w task i e.

(** Attempt number [i] gets the answer [status] from the server. *)
Definition attempt_status (urlparse : string -> Outcome ParseResult)
    (dl : ImageDownloader) (w : World) (task : DownloadTask)
    (i : nat) (status : Z) : Prop :=
  exists hs, _build_headers urlparse dl task = Returns hs /\
             session_get w i (request dl task hs) = Returns status.

(** What [download_task] comes back with once [on_error] has been called. *)
Definition after_on_error (task : DownloadTask) (err : TaskDownloadError.t) : Res bool :=
  match on_error task err with
  | Returns _ => Ret false
  | Raises e => Raise e
  end.




(** ** Predicates on states and logs used by the proofs *)

Definition preserves {A} (I : State -> Prop) (m : M A) : Prop :=
  forall s, I s -> I (snd (m s)).



(** From [s] to [s']: the engine's fields are the same, [errs] has been
    appended to [errors], [n] attempts have started, and no hook has been
    called. *)
Definition delta (n : nat) (errs : list PyExc) (s s' : State) : Prop :=
  self s' = self s /\
  errors s' = errors s ++ errs /\
  attempts_made s' = (attempts_made s + n)%nat /\
  on_success_calls s' = on_success_calls s /\
  reported s' = reported s.

(** An event that is neither the start of an attempt nor a hook call. *)
Definition silent (ev : Event) : Prop :=
  is_attempt ev = false /\ is_on_success ev = false /\ is_on_error ev = false.




(** Counting attempts from below. *)
Definition at_least (N : nat) (s : State) : Prop := (N <= attempts_made s)%nat.

(** A coroutine that never parks: it returns or raises from every state. *)
Definition never_parks {A} (m : M A) : Prop := forall s, fst (m s) <> Hang.



(** The settings and the semaphore are the same; the counters may differ. *)
Definition same_settings (dl dl' : ImageDownloader) : Prop :=
  default_headers dl' = default_headers dl /\
  _timeout dl' = _timeout dl /\
  max_retries dl' = max_retries dl /\
  _semaphore dl' = _semaphore dl.

(** The job goes through at its first attempt: the directory is there, the
    server answers 200, the body is read and written, [on_success] returns. *)
Definition succeeds_at_once (urlparse : string -> Outcome ParseResult)
    (dl : ImageDownloader) (job : World * DownloadTask) : Prop :=
  mkdir (fst job) (save_path (snd job)) = Returns tt /\
  exists hs content,
    _build_headers urlparse dl (snd job) = Returns hs /\
    session_get (fst job) 0 (request dl (snd job) hs) = Returns 200 /\
    response_read (fst job) 0 = Returns content /\
    file_write (fst job) 0 (save_path (snd job)) content = Returns tt /\
    on_success (snd job) 0 = Returns tt.

(** The settings of the engine are the same; the semaphore and the counters
    may differ. *)
Definition same_config (dl dl' : ImageDownloader) : Prop :=
  max_concurrent dl' = max_concurrent dl /\
  delay_range dl' = delay_range dl /\
  max_retries dl' = max_retries dl /\
  default_headers dl' = default_headers dl /\
  _timeout dl' = _timeout dl.

(** From [s] to [s']: the settings are kept, the semaphore has moved by [d],
    [ka] attempts have started, [on_success] has been called [ks] times and
    [on_error] [ke] times, each call counted in its counter, at most [kx]
    errors have been recorded, and the log has only grown. *)
Definition grows (d : Z) (ka ks ke kx : nat) (s s' : State) : Prop :=
  same_config (self s) (self s') /\
  _semaphore (self s') = _semaphore (self s) + d /\
  __total_downloaded (self s') = __total_downloaded (self s) + Z.of_nat ks /\
  __total_failed (self s') = __total_failed (self s) + Z.of_nat ke /\
  attempts_made s' = (attempts_made s + ka)%nat /\
  on_success_calls s' = (on_success_calls s + ks)%nat /\
  on_error_calls s' = (on_error_calls s + ke)%nat /\
  (length (errors s') <= length (errors s) + kx)%nat /\
  (ke = 0%nat -> reported s' = reported s) /\
  exists new, log s' = new ++ log s.

(** What the block under the response can come back with, against the
    calls of [on_success] made and the errors recorded. *)
Definition response_ok (r : Res LoopCtl) (ks kx : nat) : Prop :=
  match r with
  | Ret Next => ks = 0%nat /\ (kx <= 1)%nat
  | Ret Break => False
  | Ret (Return b) => b = true /\ ks = 1%nat /\ kx = 0%nat
  | Raise _ => (ks <= 1)%nat /\ kx = 0%nat
  | Hang => False
  end.

(** The same for one iteration of the loop. *)
Definition iteration_ok (r : Res LoopCtl) (ks : nat) : Prop :=
  match r with
  | Ret (Return b) => b = true /\ ks = 1%nat
  | Hang => False
  | _ => (ks <= 1)%nat
  end.

(** The loop returns only [True], and only after a call of [on_success]. *)
Definition loop_ok (r : Res (option bool)) (ks : nat) : Prop :=
  match r with
  | Ret (Some b) => b = true /\ (1 <= ks)%nat
  | Hang => False
  | _ => True
  end.

(** The result of a task against the hooks called: [True] without
    [on_error] and after [on_success], [False] after one [on_error]; it
    does not park. *)
Definition task_ok (r : Res bool) (ks ke : nat) : Prop :=
  match r with
  | Ret true => ke = 0%nat /\ (1 <= ks)%nat
  | Ret false => ke = 1%nat
  | Raise _ => True
  | Hang => False
  end.

(** What [on_error] was given, when it was called: the errors recorded so
    far, at most [bound] of them. *)
Definition reported_within (task : DownloadTask) (bound : nat) (ke : nat)
    (s s' : State) : Prop :=
  ke = 1%nat ->
  exists errs,
    reported s' = reported s ++ [TaskDownloadError.__init__ (url task) errs] /\
    (length errs <= bound)%nat.

(** The exception the engine records for a 429 and for a 403. *)
Definition status_error (status : Z) : PyExc :=
  if status =? 429 then mkExc Exception_ "HTTP 429: Rate limited"
  else mkExc Exception_ "HTTP 403: Forbidden".

(** Attempt number [i] goes through: the server answers 200, the body is
    read and written, and [on_success] returns. *)
Definition succeeds_at (urlparse : string -> Outcome ParseResult)
    (dl : ImageDownloader) (w : World) (task : DownloadTask) (i : nat) : Prop :=
  exists hs content,
    _build_headers urlparse dl task = Returns hs /\
    session_get w i (request dl task hs) = Returns 200 /\
    response_read w i = Returns content /\
    file_write w i (save_path task) content = Returns tt /\
    on_success task i = Returns tt.

(** The first attempt fails, every later one goes through. *)
Definition world_flaky : World :=
  {| random := fun _ => (1 # 2)%Q;
     mkdir := fun _ => Returns tt;
     session_get := fun i _ =>
       match i with
       | O => Raises (mkExc TimeoutError "timed out")
       | _ => Returns 200
       end;
     response_read := fun _ => Returns "bytes";
     file_write := fun _ _ _ => Returns tt |}.


(** ** More of [kumo/utils/helpers.py] *)

(** [sub in s] on strings *)
Fixpoint str_in (sub s : string) : bool :=
  String.prefix sub s ||
  match s with
  | EmptyString => false
  | String _ r => str_in sub r
  end.

(** The list [get_image_extension] walks through, in its order. *)
Definition image_extensions : list string :=
  [".jpg"; ".jpeg"; ".png"; ".gif"; ".webp"; ".avif"].

(** The [for ext in [...]: if ext in lowered: return ext] of
    [get_image_extension]; [None] when the loop falls through. *)
Fixpoint first_extension (exts : list string) (lowered : string) : option string :=
  match exts with
  | [] => None
  | ext :: rest =>
      if str_in ext lowered then Some ext else first_extension rest lowered
  end.

(** [get_image_extension(url)], for a URL of ASCII characters (on which
    [str.lower] is [str_lower]). *)
Definition get_image_extension (url : string) : string :=
  match first_extension image_extensions (str_lower url) with
  | Some ext => ext
  | None => ".jpg"
  end.

(** ** More of [kumo/exceptions.py] *)

Module BrowserNavigationError.
Record t := mk {
  url : string;
  reason : string;
  message : string
}.

(** [x or y] on strings: [x] unless it is empty *)
Definition str_or (x y : string) : string :=
  if bool_decide (x = "") then y else x.

(** [BrowserNavigationError.__init__(self, url, reason)] of [kumo] *)
Definition __init__ (url reason : string) : t :=
  let message := "Failed to navigate to: " +:+ url in
  let message :=
    if bool_decide (reason = "") then message
    else message +:+ " (" +:+ str_or reason "No reason provided" +:+ ")" in
  mk url reason message.

(** The same constructor in the older package [comics]. *)
Definition __init__comics (url reason : string) : t :=
  let message := "Failed to navigate to: " +:+ url in
  let message :=
    if bool_decide (reason = "") then message
    else message +:+ " (" +:+ reason +:+ ")" in
  mk url reason message.
End BrowserNavigationError.

(** ** The pauses of the engine *)

(** The pauses [download_task] can take: the pacing one, drawn by
    [random_delay] from [delay_range], and the back-offs, drawn from
    [(5, 10)] after a 429, [(2, 4)] after a 403 and [(2, 5)] after an
    exception.  [d] is what [random.uniform] returned for one of the random
    numbers of the world. *)
Definition engine_pause (dr : option (Q * Q)) (w : World) (d : Q) : Prop :=
  exists lo hi k,
    d = uniform lo hi (random w k) /\
    (dr = Some (lo, hi) \/ (lo, hi) = (5%Q, 10%Q) \/ (lo, hi) = (2%Q, 4%Q)
     \/ (lo, hi) = (2%Q, 5%Q)).

Definition pause_ok (dr : option (Q * Q)) (w : World) (ev : Event) : Prop :=
  match ev with
  | EvSleep d => engine_pause dr w d
  | _ => True
  end.

(** Since [base], with pacing range [dr], every pause has been one of the
    engine's. *)
Definition pauses_since (dr : option (Q * Q)) (w : World) (base : list Event)
    (s : State) : Prop :=
  delay_range (self s) = dr /\
  exists new, log s = new ++ base /\ Forall (pause_ok dr w) new.

(** ** More of [kumo/core/models.py] *)

(** [DownloadTask(url=..., save_path=..., headers=..., cookies=...,
    referer=...)]: a task of the base class, whose hooks are [pass].
    ([extras] is not read by the engine and is not part of the record.) *)
Definition DownloadTask_new (url save_path : string)
    (headers cookies : gmap string string) (referer : string) : DownloadTask :=
  {| url := url; save_path := save_path; headers := headers;
     cookies := cookies; referer := referer;
     on_success := default_on_success; on_error := default_on_error |}.

(** A title is a Python [str], a sequence of code points; [safe_title]
    depends on which of them are blank, so titles are kept as code points. *)

(** The class of the pattern of [safe_title]: [<], [>], [:], the double
    quote, [/], the backslash, [|], [?] and the star. *)
Definition forbidden (c : N) : bool :=
  ((c =? 60) || (c =? 62) || (c =? 58) || (c =? 34) || (c =? 47)
   || (c =? 92) || (c =? 124) || (c =? 63) || (c =? 42))%N.

(** [str.isspace] on one code point (CPython's [_PyUnicode_IsWhitespace]) *)
Definition isspace (c : N) : bool :=
  (((9 <=? c) && (c <=? 13)) || ((28 <=? c) && (c <=? 31)) || (c =? 32)
   || (c =? 133) || (c =? 160) || (c =? 5760)
   || ((8192 <=? c) && (c <=? 8202)) || (c =? 8232) || (c =? 8233)
   || (c =? 8239) || (c =? 8287) || (c =? 12288))%N.

(** [re.sub(pattern, '', title)] for the pattern above *)
Definition remove_forbidden (title : list N) : list N :=
  List.filter (fun c => negb (forbidden c)) title.

Fixpoint lstrip (t : list N) : list N :=
  match t with
  | [] => []
  | c :: r => if isspace c then lstrip r else t
  end.

Definition rstrip (t : list N) : list N := reverse (lstrip (reverse t)).

(** [str.strip()] *)
Definition strip (t : list N) : list N := rstrip (lstrip t).

(** [Chapter.safe_title] and [Comic.safe_title]: the same expression *)
Definition safe_title (title : list N) : list N := strip (remove_forbidden title).

Fixpoint zeros (n : nat) : string :=
  match n with
  | O => EmptyString
  | S k => String "0" (zeros k)
  end.

(** The digits padded with zeros on the left up to [width] *)
Definition zfill (width : nat) (digits : string) : string :=
  zeros (width - String.length digits) +:+ digits.

(** The format [03d] on an [int]: zero padding to width 3, the sign
    counted in and put first. *)
Definition format_03d (i : Z) : string :=
  if i <? 0 then "-" +:+ zfill 2 (pretty (Z.to_N (- i)))
  else zfill 3 (pretty (Z.to_N i)).

Module Image.
Record t := mk {
  index : Z;
  url : string;
  filename : string
}.

(** [Image.__post_init__] *)
Definition __post_init__ (self : t) : t :=
  if bool_decide (filename self = "")
  then mk (index self) (url self) (format_03d (index self) +:+ ".jpg")
  else self.

(** [Image(index, url, filename)] *)
Definition new (index : Z) (url filename : string) : t :=
  __post_init__ (mk index url filename).

Section WithPath.
(** [save_dir / filename] of [pathlib] *)
Variable joinpath : string -> string -> string.

(** [Image.to_task]; [ensure_path] changes the type of [save_dir], not the
    path. *)
Definition to_task (self : t) (save_dir : string)
    (headers cookies : option (gmap string string)) (referer : string)
    : DownloadTask :=
  DownloadTask_new (url self) (joinpath save_dir (filename self))
    (default ∅ headers) (default ∅ cookies) referer.
End WithPath.
End Image.

Module Chapter.
Record t := mk {
  id : string;
  title : list N;
  url : string;
  images : list Image.t;
  headers : gmap string string;
  cookies : gmap string string
}.

Section WithPath.
Variable joinpath : string -> string -> string.

(** The task one turn of the loop of [to_download_tasks] appends. *)
Definition task_of (self : t) (save_dir : string) (image : Image.t) : DownloadTask :=
  DownloadTask_new (Image.url image) (joinpath save_dir (Image.filename image))
    (headers self) (cookies self) (url self).

(** [Chapter.to_download_tasks] *)
Definition to_download_tasks (self : t) (save_dir : string) : list DownloadTask :=
  fold_left (fun tasks image => tasks ++ [task_of self save_dir image])
    (images self) [].
End WithPath.
End Chapter.

(** Reading a file name back: the digits at its start, after the sign. *)
Definition is_digit (c : ascii) : bool :=
  ((48 <=? N_of_ascii c) && (N_of_ascii c <=? 57))%N.

Definition digit_value (c : ascii) : N := (N_of_ascii c - 48)%N.

Fixpoint read_digits (acc : N) (s : string) : N :=
  match s with
  | EmptyString => acc
  | String c r =>
      if is_digit c then read_digits (10 * acc + digit_value c)%N r else acc
  end.

Definition read_index (s : string) : Z :=
  match s with
  | String c r =>
      if Ascii.eqb c "-" then - Z.of_N (read_digits 0 r)
      else Z.of_N (read_digits 0 s)
  | EmptyString => 0
  end.

(** ** Properties *)

(** *** [set_timeout] *)

(** C10. [set_timeout(t)] raises [AttributeError] for every instance and
    every [t]: the assignment goes to the property [timeout], which has no
    setter.  Nothing of the instance changes, so [timeout] reads the same
    value afterwards. *)
Theorem set_timeout_raises_AttributeError :
  forall (s : State) (t : Z),
    exists e,
      set_timeout t s = (Raise e, s) /\
      exc_class e = AttributeError /\
      timeout (self (snd (set_timeout t s))) = timeout (self s).
Proof.
  intros s t.
  eexists. split; [reflexivity|]. split; reflexivity.
Qed.

(** *** [_build_headers] *)

Lemma lookup_merged (dl : ImageDownloader) (task : DownloadTask) (k : string) :
  (headers task ∪ default_headers dl) !! k = merged_header dl task k.
Proof.
  unfold merged_header. rewrite lookup_union.
  destruct (headers task !! k) as [v|]; destruct (default_headers dl !! k);
    reflexivity.
Qed.

(** C7, as the engine has it.  Whatever [urlparse] is, [_build_headers]
    either returns headers or raises what [urlparse] raised on the referer.
    The headers it returns are, key by key, the engine defaults overridden
    by the task's headers, and, exactly when the referer is not empty,
    [Referer] is the referer and [Origin] is the parsed scheme, ["://"] and
    the parsed netloc: the whole authority of the referer, user
    information and port included, not its host alone.  With the referer
    ["https://example.com/x"] the two keys are ["https://example.com/x"] and
    ["https://example.com"]. *)
Theorem build_headers_merges_by_priority :
  (forall urlparse dl task k,
     match _build_headers urlparse dl task with
     | Returns hs => hs !! k = expected_header urlparse dl task k
     | Raises e => referer task <> "" /\ urlparse (referer task) = Raises e
     end) /\
  (forall dl task,
     exists hs,
       _build_headers urlparse_ascii dl
         (with_referer "https://example.com/x" task) = Returns hs /\
       hs !! "Referer" = Some "https://example.com/x" /\
       hs !! "Origin" = Some "https://example.com").
Proof.
  split.
  - intros urlparse dl task k. unfold _build_headers, expected_header.
    case_bool_decide as Href.
    + apply lookup_merged.
    + destruct (urlparse (referer task)) as [parsed|e] eqn:Hparse.
      * case_bool_decide as Hk1.
        { subst k. rewrite lookup_insert_ne by discriminate.
          apply lookup_insert_eq. }
        case_bool_decide as Hk2.
        { subst k. apply lookup_insert_eq. }
        rewrite !lookup_insert_ne by congruence.
        apply lookup_merged.
      * split; [assumption|reflexivity].
  - intros dl task. eexists. split; [reflexivity|]. split.
    + rewrite lookup_insert_ne by discriminate. apply lookup_insert_eq.
    + apply lookup_insert_eq.
Qed.

(** *** Invariants of the state carried through a coroutine *)

Section Preservation.

Variable I : State -> Prop.
(** The events the invariant lets through. *)
Variable allowed : Event -> Prop.

Hypothesis I_semaphore : forall s d, I s -> I (set_self (add_semaphore d) s).
Hypothesis I_downloaded : forall s d, I s -> I (set_self (add_downloaded d) s).
Hypothesis I_failed : forall s d, I s -> I (set_self (add_failed d) s).
Hypothesis I_errors : forall s e, I s -> I (set_errors (fun es => es ++ [e]) s).
Hypothesis I_draw : forall s, I s -> I (next_draw s).
Hypothesis I_push : forall s ev, allowed ev -> I s -> I (push_event ev s).

Lemma preserves_ret {A} (a : A) : preserves I (ret a).
Proof. intros s Hs. exact Hs. Qed.

Lemma preserves_raise {A} (e : PyExc) : preserves I (@raise A e).
Proof. intros s Hs. exact Hs. Qed.

Lemma preserves_gets {A} (f : State -> A) : preserves I (gets f).
Proof. intros s Hs. exact Hs. Qed.

Lemma preserves_lift {A} (o : Outcome A) : preserves I (lift o).
Proof. destruct o; intros s Hs; exact Hs. Qed.

(** Pointwise forms: the first part has been run from [s] by hand. *)
Lemma bind_at {A B} (m : M A) (k : A -> M B) (s : State) :
  I (snd (m s)) -> (forall a, preserves I (k a)) -> I (snd (bind m k s)).
Proof.
  intros Hm Hk. unfold bind.
  destruct (m s) as [[a|e|] s1]; simpl in *.
  - apply Hk, Hm.
  - exact Hm.
  - exact Hm.
Qed.

Lemma try_except_at {A} (body : M A) (handler : PyExc -> M A) (s : State) :
  I (snd (body s)) -> (forall e, preserves I (handler e)) ->
  I (snd (try_except body handler s)).
Proof.
  intros Hb Hh. unfold try_except.
  destruct (body s) as [[a|e|] s1]; simpl in *; try exact Hb.
  destruct (isinstance_Exception e); simpl; [apply Hh, Hb|exact Hb].
Qed.

Lemma try_finally_at {A} (body : M A) (cleanup : M unit) (s : State) :
  I (snd (body s)) -> preserves I cleanup ->
  I (snd (try_finally body cleanup s)).
Proof.
  intros Hb Hc. unfold try_finally.
  destruct (body s) as [[a|e|] s1]; simpl in *;
    try exact Hb;
    specialize (Hc s1 Hb); destruct (cleanup s1) as [[u|e'|] s2]; exact Hc.
Qed.

Lemma preserves_bind {A B} (m : M A) (k : A -> M B) :
  preserves I m -> (forall a, preserves I (k a)) -> preserves I (bind m k).
Proof. intros Hm Hk s Hs. apply bind_at; [apply Hm, Hs|exact Hk]. Qed.

Lemma preserves_try_except {A} (body : M A) (handler : PyExc -> M A) :
  preserves I body -> (forall e, preserves I (handler e)) ->
  preserves I (try_except body handler).
Proof. intros Hb Hh s Hs. apply try_except_at; [apply Hb, Hs|exact Hh]. Qed.

Lemma preserves_try_finally {A} (body : M A) (cleanup : M unit) :
  preserves I body -> preserves I cleanup ->
  preserves I (try_finally body cleanup).
Proof. intros Hb Hc s Hs. apply try_finally_at; [apply Hb, Hs|exact Hc]. Qed.

Lemma preserves_for_range (idxs : list nat) (body : nat -> M LoopCtl) :
  (forall i, preserves I (body i)) -> preserves I (for_range idxs body).
Proof.
  intros Hbody. induction idxs as [|i rest IH]; simpl.
  - apply preserves_ret.
  - apply preserves_bind; [apply Hbody|].
    intros [| |b]; [exact IH|apply preserves_ret|apply preserves_ret].
Qed.

Lemma preserves_emit (ev : Event) : allowed ev -> preserves I (emit ev).
Proof. intros Hev s Hs. apply I_push; assumption. Qed.

Lemma preserves_append_error (e : PyExc) : preserves I (append_error e).
Proof. intros s Hs. apply I_errors, Hs. Qed.

Hypothesis allowed_sleep : forall d, allowed (EvSleep d).

Lemma preserves_random_delay (w : World) (lo hi : Q) :
  preserves I (random_delay w lo hi).
Proof.
  unfold random_delay. destruct (Qle_bool hi 0).
  - apply preserves_ret.
  - intros s Hs. simpl. apply I_push; [apply allowed_sleep|]. apply I_draw, Hs.
Qed.

Lemma preserves_pace (w : World) : preserves I (pace w).
Proof.
  intros s Hs. unfold pace, bind, gets.
  destruct (delay_range (self s)) as [[lo hi]|].
  - apply preserves_random_delay, Hs.
  - exact Hs.
Qed.

Lemma preserves_attempt_except (w : World) (i : nat) (e : PyExc) :
  preserves I (attempt_except w i e).
Proof.
  unfold attempt_except.
  apply preserves_bind; [apply preserves_append_error|]. intros _.
  apply preserves_bind; [apply preserves_gets|]. intros mr.
  destruct (Z.of_nat i <? mr - 1).
  - apply preserves_bind; [apply preserves_random_delay|]. intros _.
    apply preserves_ret.
  - apply preserves_ret.
Qed.

Hypothesis allowed_write : forall p c, allowed (EvWrite p c).
Hypothesis allowed_on_success : forall u, allowed (EvOnSuccess u).

Lemma preserves_with_response (w : World) (task : DownloadTask) (i : nat)
    (req : Request) :
  preserves I (with_response w task i req).
Proof.
  unfold with_response.
  apply preserves_bind; [apply preserves_lift|]. intros status.
  destruct (status =? 200).
  { apply preserves_bind; [apply preserves_lift|]. intros content.
    apply preserves_bind; [apply preserves_lift|]. intros _.
    apply preserves_bind; [apply preserves_emit, allowed_write|]. intros _.
    apply preserves_bind; [intros s Hs; apply I_downloaded, Hs|]. intros _.
    apply preserves_bind; [apply preserves_emit, allowed_on_success|]. intros _.
    apply preserves_bind; [apply preserves_lift|]. intros _.
    apply preserves_ret. }
  destruct (status =? 429).
  { apply preserves_bind; [apply preserves_append_error|]. intros _.
    apply preserves_bind; [apply preserves_random_delay|]. intros _.
    apply preserves_ret. }
  destruct (status =? 403).
  { apply preserves_bind; [apply preserves_append_error|]. intros _.
    apply preserves_bind; [apply preserves_random_delay|]. intros _.
    apply preserves_ret. }
  apply preserves_ret.
Qed.

Hypothesis allowed_on_error : forall err, allowed (EvOnError err).

Lemma preserves_report_failure (task : DownloadTask) :
  preserves I (report_failure task).
Proof.
  unfold report_failure.
  apply preserves_bind; [intros s Hs; apply I_failed, Hs|]. intros _.
  apply preserves_bind; [apply preserves_gets|]. intros errs.
  apply preserves_bind; [apply preserves_emit, allowed_on_error|]. intros _.
  apply preserves_bind; [apply preserves_lift|]. intros _.
  apply preserves_ret.
Qed.

Hypothesis allowed_mkdir : forall p, allowed (EvMkdir p).

(** Whatever the attempts preserve, the task preserves while it holds its
    slot. *)
Lemma preserves_task_body (urlparse : string -> Outcome ParseResult)
    (w : World) (task : DownloadTask) :
  (forall i, preserves I (attempt_body urlparse w task i)) ->
  preserves I (task_body urlparse w task).
Proof.
  intros Hbody. unfold task_body.
  apply preserves_bind; [apply preserves_emit, allowed_mkdir|]. intros _.
  apply preserves_bind; [apply preserves_lift|]. intros _.
  apply preserves_bind; [apply preserves_gets|]. intros mr.
  apply preserves_bind; [apply preserves_for_range, Hbody|].
  intros [b|]; [apply preserves_ret|apply preserves_report_failure].
Qed.

Hypothesis allowed_attempt : forall i, allowed (EvAttempt i).
Hypothesis allowed_get : forall req, allowed (EvGet req).

Lemma preserves_attempt_try (urlparse : string -> Outcome ParseResult)
    (w : World) (task : DownloadTask) (i : nat) :
  preserves I (attempt_try urlparse w task i).
Proof.
  unfold attempt_try.
  apply preserves_bind; [apply preserves_pace|]. intros _.
  apply preserves_bind; [apply preserves_gets|]. intros dl.
  apply preserves_bind; [apply preserves_lift|]. intros hs.
  apply preserves_bind; [apply preserves_emit, allowed_get|]. intros _.
  apply preserves_with_response.
Qed.

Lemma preserves_attempt_body (urlparse : string -> Outcome ParseResult)
    (w : World) (task : DownloadTask) (i : nat) :
  preserves I (attempt_body urlparse w task i).
Proof.
  unfold attempt_body.
  apply preserves_bind; [apply preserves_emit, allowed_attempt|]. intros _.
  apply preserves_try_except;
    [apply preserves_attempt_try|apply preserves_attempt_except].
Qed.

End Preservation.

(** *** Pacing *)




Section Paced.

Variable P : list Event -> Prop.
Variable dr : option (Q * Q).
Variable base : list Event.




End Paced.








(** *** What a run adds to the state *)

Lemma delta_refl s : delta 0 [] s s.
Proof.
  unfold delta. rewrite app_nil_r, Nat.add_0_r. repeat split; reflexivity.
Qed.

Lemma delta_trans n1 e1 n2 e2 s s1 s2 :
  delta n1 e1 s s1 -> delta n2 e2 s1 s2 -> delta (n1 + n2) (e1 ++ e2) s s2.
Proof.
  intros (Ha & Hb & Hc & Hd & He) (Ha' & Hb' & Hc' & Hd' & He').
  unfold delta. rewrite Ha', Ha, Hb', Hb, Hc', Hc, Hd', Hd, He', He.
  rewrite app_assoc, Nat.add_assoc. repeat split; reflexivity.
Qed.

Lemma delta_push ev s : silent ev -> delta 0 [] s (push_event ev s).
Proof.
  intros (Ha & Hs & He).
  unfold delta, attempts_made, on_success_calls, reported, count_events. simpl.
  rewrite Ha, Hs, app_nil_r, Nat.add_0_r.
  destruct ev; try discriminate He; repeat split; reflexivity.
Qed.

Lemma delta_attempt i s : delta 1 [] s (push_event (EvAttempt i) s).
Proof.
  unfold delta, attempts_made, on_success_calls, reported, count_events. simpl.
  rewrite app_nil_r, Nat.add_1_r. repeat split; reflexivity.
Qed.

Lemma delta_append e s : delta 0 [e] s (set_errors (fun es => es ++ [e]) s).
Proof.
  unfold delta, attempts_made, on_success_calls, reported, count_events. simpl.
  rewrite Nat.add_0_r. repeat split; reflexivity.
Qed.

Lemma delta_draw s : delta 0 [] s (next_draw s).
Proof.
  unfold delta, attempts_made, on_success_calls, reported, count_events. simpl.
  rewrite app_nil_r, Nat.add_0_r. repeat split; reflexivity.
Qed.

(** Running the first part of a [bind] by an equation. *)
Lemma bind_Ret {A B} (m : M A) (k : A -> M B) s a s1 :
  m s = (Ret a, s1) -> bind m k s = k a s1.
Proof. intros H. unfold bind. rewrite H. reflexivity. Qed.

Lemma bind_Raise {A B} (m : M A) (k : A -> M B) s e s1 :
  m s = (Raise e, s1) -> bind m k s = (Raise e, s1).
Proof. intros H. unfold bind. rewrite H. reflexivity. Qed.

Lemma random_delay_quiet w lo hi s :
  exists s', random_delay w lo hi s = (Ret tt, s') /\ delta 0 [] s s'.
Proof.
  unfold random_delay. destruct (Qle_bool hi 0).
  - exists s. split; [reflexivity|apply delta_refl].
  - eexists. split; [reflexivity|].
    apply (delta_trans 0 [] 0 [] s (next_draw s)); [apply delta_draw|].
    apply delta_push. repeat split.
Qed.

Lemma pace_quiet w s :
  exists s', pace w s = (Ret tt, s') /\ delta 0 [] s s'.
Proof.
  unfold pace. unfold bind, gets.
  destruct (delay_range (self s)) as [[lo hi]|].
  - apply random_delay_quiet.
  - exists s. split; [reflexivity|apply delta_refl].
Qed.

(** The [except] clause records the exception, and goes on to the next
    attempt unless this was the last one. *)
Lemma attempt_except_spec w i e s :
  exists s',
    attempt_except w i e s
      = (Ret (if Z.of_nat i <? max_retries (self s) - 1 then Next else Break), s') /\
    delta 0 [e] s s'.
Proof.
  unfold attempt_except, append_error.
  rewrite (bind_Ret _ _ s tt (set_errors (fun es => es ++ [e]) s)) by reflexivity.
  rewrite (bind_Ret _ _ _ (max_retries (self s)) (set_errors (fun es => es ++ [e]) s))
    by reflexivity.
  destruct (Z.of_nat i <? max_retries (self s) - 1).
  - destruct (random_delay_quiet w 2 5 (set_errors (fun es => es ++ [e]) s))
      as (s' & Hrun & Hd).
    exists s'. rewrite (bind_Ret _ _ _ _ _ Hrun). split; [reflexivity|].
    apply (delta_trans 0 [e] 0 [] s _ s' (delta_append e s) Hd).
  - eexists. split; [reflexivity|apply delta_append].
Qed.

(** An attempt that raises before any hook leaves the [try] with that
    exception, and has changed nothing but the log and the random draws. *)
Lemma attempt_try_raises urlparse w task i e s :
  attempt_raises urlparse (self s) w task i e ->
  exists s', attempt_try urlparse w task i s = (Raise e, s') /\ delta 0 [] s s'.
Proof.
  intros Hraises. unfold attempt_try.
  destruct (pace_quiet w s) as (s1 & Hpace & Hd1).
  rewrite (bind_Ret _ _ _ _ _ Hpace).
  rewrite (bind_Ret _ _ s1 (self s1) s1) by reflexivity.
  assert (Hself : self s1 = self s) by apply Hd1. rewrite Hself.
  destruct Hraises as [Hh|hs Hh Hget|hs Hh Hget Hread|hs content Hh Hget Hread Hwrite].
  - exists s1. rewrite Hh. split; [reflexivity|exact Hd1].
  - rewrite Hh. simpl lift.
    rewrite (bind_Ret _ _ s1 hs s1) by reflexivity.
    rewrite (bind_Ret _ _ s1 tt (push_event (EvGet (request (self s) task hs)) s1))
      by reflexivity.
    eexists. unfold with_response. rewrite Hget. split; [reflexivity|].
    apply (delta_trans 0 [] 0 [] s s1 _ Hd1). apply delta_push. repeat split.
  - rewrite Hh. simpl lift.
    rewrite (bind_Ret _ _ s1 hs s1) by reflexivity.
    rewrite (bind_Ret _ _ s1 tt (push_event (EvGet (request (self s) task hs)) s1))
      by reflexivity.
    eexists. unfold with_response. rewrite Hget. simpl lift.
    rewrite (bind_Ret _ _ _ 200 _) by reflexivity. simpl.
    rewrite Hread. split; [reflexivity|].
    apply (delta_trans 0 [] 0 [] s s1 _ Hd1). apply delta_push. repeat split.
  - rewrite Hh. simpl lift.
    rewrite (bind_Ret _ _ s1 hs s1) by reflexivity.
    rewrite (bind_Ret _ _ s1 tt (push_event (EvGet (request (self s) task hs)) s1))
      by reflexivity.
    eexists. unfold with_response. rewrite Hget. simpl lift.
    rewrite (bind_Ret _ _ _ 200 _) by reflexivity. simpl.
    rewrite Hread. simpl lift.
    rewrite (bind_Ret _ _ _ content _) by reflexivity.
    rewrite Hwrite. split; [reflexivity|].
    apply (delta_trans 0 [] 0 [] s s1 _ Hd1). apply delta_push. repeat split.
Qed.

Lemma try_except_Raise {A} (body : M A) (handler : PyExc -> M A) s e s1 :
  body s = (Raise e, s1) -> isinstance_Exception e = true ->
  try_except body handler s = handler e s1.
Proof. intros Hb He. unfold try_except. rewrite Hb, He. reflexivity. Qed.

Lemma try_except_Ret {A} (body : M A) (handler : PyExc -> M A) s a s1 :
  body s = (Ret a, s1) -> try_except body handler s = (Ret a, s1).
Proof. intros Hb. unfold try_except. rewrite Hb. reflexivity. Qed.

(** One iteration whose attempt raises: the exception is recorded, one
    attempt has been made, and the loop goes on unless this was the last
    index. *)
Lemma attempt_body_raises urlparse w task i e s :
  attempt_raises urlparse (self s) w task i e ->
  isinstance_Exception e = true ->
  exists s',
    attempt_body urlparse w task i s
      = (Ret (if Z.of_nat i <? max_retries (self s) - 1 then Next else Break), s') /\
    delta 1 [e] s s'.
Proof.
  intros Hraises Hexc. unfold attempt_body.
  rewrite (bind_Ret _ _ s tt (push_event (EvAttempt i) s)) by reflexivity.
  destruct (attempt_try_raises urlparse w task i e (push_event (EvAttempt i) s) Hraises)
    as (s1 & Htry & Hd1).
  rewrite (try_except_Raise _ _ _ _ _ Htry Hexc).
  destruct (attempt_except_spec w i e s1) as (s2 & Hexcept & Hd2).
  assert (Hself : self s1 = self s) by apply Hd1.
  rewrite Hself in Hexcept.
  exists s2. split; [exact Hexcept|].
  apply (delta_trans 1 [] 0 [e] s _ s2 (delta_attempt i s)).
  apply (delta_trans 0 [] 0 [e] _ s1 s2 Hd1 Hd2).
Qed.

(** One iteration whose response has a status other than 200, 429 and 403:
    no branch of the engine takes it, nothing is recorded, and the loop goes
    on to the next index. *)
Lemma attempt_body_other_status urlparse w task i status s :
  attempt_status urlparse (self s) w task i status ->
  status <> 200 -> status <> 429 -> status <> 403 ->
  exists s',
    attempt_body urlparse w task i s = (Ret Next, s') /\ delta 1 [] s s'.
Proof.
  intros (hs & Hh & Hget) H200 H429 H403. unfold attempt_body.
  rewrite (bind_Ret _ _ s tt (push_event (EvAttempt i) s)) by reflexivity.
  destruct (pace_quiet w (push_event (EvAttempt i) s)) as (s1 & Hpace & Hd1).
  assert (Hself : self s1 = self s) by apply Hd1.
  eexists. split.
  - apply try_except_Ret. unfold attempt_try.
    rewrite (bind_Ret _ _ _ _ _ Hpace).
    rewrite (bind_Ret _ _ s1 (self s1) s1) by reflexivity.
    rewrite Hself, Hh. simpl lift.
    rewrite (bind_Ret _ _ s1 hs s1) by reflexivity.
    rewrite (bind_Ret _ _ s1 tt (push_event (EvGet (request (self s) task hs)) s1))
      by reflexivity.
    unfold with_response. rewrite Hget. simpl lift.
    rewrite (bind_Ret _ _ _ status _) by reflexivity.
    apply Z.eqb_neq in H200, H429, H403. rewrite H200, H429, H403.
    reflexivity.
  - apply (delta_trans 1 [] 0 [] s _ _ (delta_attempt i s)).
    apply (delta_trans 0 [] 0 [] _ s1 _ Hd1). apply delta_push. repeat split.
Qed.

(** The loop over [seq a m] when every iteration fails in the way [delta]
    describes and only the last index may [break]: it ends without a
    return, after [m] attempts, with all the recorded errors in order. *)
Lemma for_range_exhausts (body : nat -> M LoopCtl) (errs : nat -> list PyExc)
    (n : nat) (dl : ImageDownloader) :
  (forall i s0, (i < n)%nat -> self s0 = dl ->
     exists ctl s1,
       body i s0 = (Ret ctl, s1) /\ delta 1 (errs i) s0 s1 /\
       (ctl = Next \/ (ctl = Break /\ S i = n))) ->
  forall m a s, (a + m = n)%nat -> self s = dl ->
    exists s',
      for_range (seq a m) body s = (Ret None, s') /\
      delta m (flat_map errs (seq a m)) s s'.
Proof.
  intros Hbody. induction m as [|m IH]; intros a s Ham Hself; simpl.
  - exists s. split; [reflexivity|apply delta_refl].
  - destruct (Hbody a s) as (ctl & s1 & Hrun & Hd1 & Hctl); [lia|exact Hself|].
    rewrite (bind_Ret _ _ _ _ _ Hrun).
    destruct Hctl as [->|[-> Hlast]].
    + destruct (IH (S a) s1) as (s' & Hloop & Hd'); [lia| |].
      { destruct Hd1 as [Hs1 _]. rewrite Hs1. exact Hself. }
      exists s'. split; [exact Hloop|].
      apply (delta_trans 1 (errs a) m _ s s1 s' Hd1 Hd').
    + assert (m = 0%nat) by lia. subst m. simpl.
      exists s1. split; [reflexivity|]. rewrite app_nil_r. exact Hd1.
Qed.

(** [download_task] when every iteration of its loop fails as [delta]
    describes: the failure is counted once, [on_error] is called once with
    all the recorded errors, and the slot is given back. *)
Lemma download_task_exhausts urlparse w task (errs : nat -> list PyExc) s :
  0 < _semaphore (self s) ->
  mkdir w (save_path task) = Returns tt ->
  (forall i s0, (i < Z.to_nat (max_retries (self s)))%nat ->
     self s0 = add_semaphore (-1) (self s) ->
     exists ctl s1,
       attempt_body urlparse w task i s0 = (Ret ctl, s1) /\ delta 1 (errs i) s0 s1 /\
       (ctl = Next \/ (ctl = Break /\ S i = Z.to_nat (max_retries (self s))))) ->
  let n := Z.to_nat (max_retries (self s)) in
  let err := TaskDownloadError.__init__ (url task) (flat_map errs (seq 0 n)) in
  exists s',
    download_task urlparse w task s = (after_on_error task err, s') /\
    attempts_made s' = (attempts_made s + n)%nat /\
    on_success_calls s' = on_success_calls s /\
    reported s' = reported s ++ [err] /\
    __total_failed (self s') = __total_failed (self s) + 1 /\
    __total_downloaded (self s') = __total_downloaded (self s) /\
    _semaphore (self s') = _semaphore (self s).
Proof.
  intros Hsem Hmkdir Hbody n err.
  unfold download_task, async_with_semaphore.
  rewrite (bind_Ret _ _ s tt (set_errors (fun _ => []) s)) by reflexivity.
  set (sa := push_event EvAcquire
               (set_self (add_semaphore (-1)) (set_errors (fun _ => []) s))).
  rewrite (bind_Ret _ _ _ tt sa).
  2:{ unfold acquire. simpl. apply Z.ltb_lt in Hsem. rewrite Hsem. reflexivity. }
  set (sb := push_event (EvMkdir (save_path task)) sa).
  destruct (for_range_exhausts (attempt_body urlparse w task) errs n
              (add_semaphore (-1) (self s)) Hbody n 0%nat sb)
    as (sc & Hloop & Hd); [lia|reflexivity|].
  destruct Hd as (Hself & Herrs & Hatt & Hsucc & Hrep).
  unfold try_finally, task_body.
  rewrite (bind_Ret _ _ sa tt sb) by reflexivity.
  rewrite Hmkdir. simpl lift.
  rewrite (bind_Ret _ _ sb tt sb) by reflexivity.
  rewrite (bind_Ret _ _ sb (max_retries (self s)) sb) by reflexivity.
  fold n. rewrite (bind_Ret _ _ _ _ _ Hloop).
  unfold report_failure.
  rewrite (bind_Ret _ _ sc tt (set_self (add_failed 1) sc)) by reflexivity.
  rewrite (bind_Ret _ _ _ (errors sc) (set_self (add_failed 1) sc)) by reflexivity.
  simpl in Herrs. rewrite Herrs. fold err.
  rewrite (bind_Ret _ _ _ tt (push_event (EvOnError err) (set_self (add_failed 1) sc)))
    by reflexivity.
  unfold maybe_coroutine, after_on_error.
  exists (push_event EvRelease
            (set_self (add_semaphore 1)
               (push_event (EvOnError err) (set_self (add_failed 1) sc)))).
  split; [destruct (on_error task err); reflexivity|].
  subst sa sb.
  unfold attempts_made, on_success_calls, reported, count_events in *.
  simpl in *.
  split; [exact Hatt|]. split; [exact Hsucc|].
  split; [rewrite Hrep; reflexivity|].
  rewrite Hself. simpl. repeat split; try reflexivity. lia.
Qed.

Lemma attempt_raises_semaphore urlparse dl w task i e d :
  attempt_raises urlparse dl w task i e ->
  attempt_raises urlparse (add_semaphore d dl) w task i e.
Proof.
  intros [Hh|hs Hh Hget|hs Hh Hget Hread|hs content Hh Hget Hread Hwrite].
  - apply raises_in_headers. exact Hh.
  - apply (raises_in_get _ _ _ _ _ _ hs); [exact Hh|exact Hget].
  - apply (raises_in_read _ _ _ _ _ _ hs); [exact Hh|exact Hget|exact Hread].
  - apply (raises_in_write _ _ _ _ _ _ hs content);
      [exact Hh|exact Hget|exact Hread|exact Hwrite].
Qed.

Lemma flat_map_singletons {A B} (f : A -> B) (l : list A) :
  flat_map (fun x => [f x]) l = map f l.
Proof. induction l as [|x l IH]; simpl; [reflexivity|]. rewrite IH. reflexivity. Qed.

Lemma flat_map_nothing {A B} (l : list A) :
  flat_map (fun _ : A => @nil B) l = [].
Proof. induction l as [|x l IH]; simpl; [reflexivity|exact IH]. Qed.

(** *** Retries *)

(** C3, as the engine has it.  A task whose every attempt raises an
    exception that [except Exception] catches (a connection failure, a
    timeout, a failed write), run by an engine with a free slot,
    [max_retries >= 0] and a creatable destination directory: exactly
    [max_retries] attempts are made, [on_error] is called once,
    [on_success] never, the failure is counted once, and the error handed to
    [on_error] lists the causes of all the attempts in order, so its list
    has [max_retries] elements and its [attempts] is [max_retries].  What
    the call comes back with is decided by [on_error], which is called
    outside every [try]: [False] when [on_error] returns, and the exception
    of [on_error] when it raises. *)
Theorem transient_failures_exhaust_retries urlparse w task (e : nat -> PyExc) s :
  0 < _semaphore (self s) ->
  0 <= max_retries (self s) ->
  mkdir w (save_path task) = Returns tt ->
  (forall i, Z.of_nat i < max_retries (self s) ->
     attempt_raises urlparse (self s) w task i (e i) /\
     isinstance_Exception (e i) = true) ->
  let n := Z.to_nat (max_retries (self s)) in
  let err := TaskDownloadError.__init__ (url task) (map e (seq 0 n)) in
  let r := download_task urlparse w task s in
  Z.of_nat (attempts_made (snd r)) = Z.of_nat (attempts_made s) + max_retries (self s) /\
  fst r = after_on_error task err /\
  (on_error task err = Returns tt -> fst r = Ret false) /\
  (forall e', on_error task err = Raises e' -> fst r = Raise e') /\
  reported (snd r) = reported s ++ [err] /\
  on_success_calls (snd r) = on_success_calls s /\
  TaskDownloadError.original_errors err = map e (seq 0 n) /\
  Z.of_nat (length (TaskDownloadError.original_errors err)) = max_retries (self s) /\
  TaskDownloadError.attempts err = max_retries (self s) /\
  __total_failed (self (snd r)) = __total_failed (self s) + 1 /\
  __total_downloaded (self (snd r)) = __total_downloaded (self s).
Proof.
  intros Hsem Hmr Hmkdir Hall n err r.
  destruct (download_task_exhausts urlparse w task (fun i => [e i]) s Hsem Hmkdir)
    as (s' & Hrun & Hatt & Hsucc & Hrep & Hfailed & Hdown & _).
  { intros i s0 Hi Hself.
    destruct (Hall i) as [Hraises Hexc]; [lia|].
    destruct (attempt_body_raises urlparse w task i (e i) s0) as (s1 & Hbody & Hd).
    - rewrite Hself. apply attempt_raises_semaphore, Hraises.
    - exact Hexc.
    - eexists _, s1. split; [exact Hbody|]. split; [exact Hd|].
      rewrite Hself. simpl.
      destruct (Z.of_nat i <? max_retries (self s) - 1) eqn:Hlast;
        [left; reflexivity|right].
      split; [reflexivity|]. apply Z.ltb_ge in Hlast. lia. }
  fold n in Hrun, Hatt, Hrep. rewrite flat_map_singletons in Hrun, Hrep.
  fold err in Hrun, Hrep. subst r. rewrite Hrun. simpl.
  assert (Hlen : Z.of_nat (length (map e (seq 0 n))) = max_retries (self s)).
  { rewrite length_map, length_seq. subst n. lia. }
  split; [rewrite Hatt; subst n; lia|].
  split; [reflexivity|].
  split; [intros Hok; unfold after_on_error; rewrite Hok; reflexivity|].
  split; [intros e' Hbad; unfold after_on_error; rewrite Hbad; reflexivity|].
  split; [exact Hrep|]. split; [exact Hsucc|].
  split; [reflexivity|]. split; [exact Hlen|]. split; [exact Hlen|].
  split; [exact Hfailed|exact Hdown].
Qed.

(** A task whose every attempt is answered with a status other than 200,
    429 and 403 (404 and 500 among them): the engine has no branch for such
    a status, so the attempt ends without recording anything.  After
    [max_retries] attempts the task is reported failed with an empty error
    list and [attempts = 0], however many attempts were made. *)
Lemma other_status_leaves_no_error urlparse w task s :
  0 < _semaphore (self s) ->
  mkdir w (save_path task) = Returns tt ->
  (forall i, Z.of_nat i < max_retries (self s) ->
     exists status,
       attempt_status urlparse (self s) w task i status /\
       status <> 200 /\ status <> 429 /\ status <> 403) ->
  let err := TaskDownloadError.__init__ (url task) [] in
  let r := download_task urlparse w task s in
  attempts_made (snd r) = (attempts_made s + Z.to_nat (max_retries (self s)))%nat /\
  fst r = after_on_error task err /\
  reported (snd r) = reported s ++ [err] /\
  TaskDownloadError.original_errors err = [] /\
  TaskDownloadError.attempts err = 0 /\
  __total_failed (self (snd r)) = __total_failed (self s) + 1.
Proof.
  intros Hsem Hmkdir Hall err r.
  destruct (download_task_exhausts urlparse w task (fun _ => []) s Hsem Hmkdir)
    as (s' & Hrun & Hatt & _ & Hrep & Hfailed & _).
  { intros i s0 Hi Hself.
    destruct (Hall i) as (status & Hstatus & H200 & H429 & H403); [lia|].
    destruct (attempt_body_other_status urlparse w task i status s0)
      as (s1 & Hbody & Hd); try assumption.
    - rewrite Hself. exact Hstatus.
    - exists Next, s1. split; [exact Hbody|]. split; [exact Hd|].
      left. reflexivity. }
  rewrite flat_map_nothing in Hrun, Hrep. fold err in Hrun, Hrep.
  subst r. rewrite Hrun. simpl.
  repeat split; assumption.
Qed.

Lemma at_least_push N s ev : at_least N s -> at_least N (push_event ev s).
Proof.
  unfold at_least, attempts_made, count_events. simpl.
  destruct (is_attempt ev); simpl; lia.
Qed.

Ltac at_least_side Hpush :=
  first [ exact Hpush
        | intros; exact I
        | let H := fresh in intros ? ? H; exact H
        | let H := fresh in intros ? H; exact H ].

Lemma at_least_download_task_tail urlparse w task N :
  (forall i, preserves (at_least N) (attempt_body urlparse w task i)) /\
  (forall i, preserves (at_least N) (attempt_try urlparse w task i)) /\
  (forall i e, preserves (at_least N) (attempt_except w i e)) /\
  preserves (at_least N) (report_failure task) /\
  preserves (at_least N) release.
Proof.
  assert (Hpush : forall s ev, True -> at_least N s -> at_least N (push_event ev s)).
  { intros s ev _. apply at_least_push. }
  split; [|split; [|split; [|split]]].
  - intros i. apply preserves_attempt_body with (allowed := fun _ => True);
      at_least_side Hpush.
  - intros i. apply preserves_attempt_try with (allowed := fun _ => True);
      at_least_side Hpush.
  - intros i e. apply preserves_attempt_except with (allowed := fun _ => True);
      at_least_side Hpush.
  - apply preserves_report_failure with (allowed := fun _ => True);
      at_least_side Hpush.
  - unfold release. apply preserves_bind.
    + intros s0 H0. exact H0.
    + intros _ s0 H0. apply at_least_push, H0.
Qed.










(** *** Where the engine departs from its description *)

(** A batch in which every task succeeds at its first attempt: each success
    is added to [__total_downloaded] once by [download_task] and once more
    by [download_tasks]. *)
Lemma succeeds_at_once_settings urlparse dl dl' job :
  same_settings dl dl' ->
  succeeds_at_once urlparse dl job -> succeeds_at_once urlparse dl' job.
Proof.
  intros (Hh & Ht & _ & _) (Hmk & hs & content & Hb & Hg & Hr & Hw & Hs).
  split; [exact Hmk|]. exists hs, content.
  unfold _build_headers, request, timeout in *. rewrite Hh, Ht.
  repeat split; assumption.
Qed.

Lemma download_task_succeeds_at_once urlparse w task s :
  0 < _semaphore (self s) ->
  0 < max_retries (self s) ->
  succeeds_at_once urlparse (self s) (w, task) ->
  exists s',
    download_task urlparse w task s = (Ret true, s') /\
    same_settings (self s) (self s') /\
    __total_downloaded (self s') = __total_downloaded (self s) + 1 /\
    __total_failed (self s') = __total_failed (self s).
Proof.
  intros Hsem Hmr (Hmk & hs & content & Hb & Hg & Hr & Hw & Hs). simpl in *.
  unfold download_task, async_with_semaphore.
  rewrite (bind_Ret _ _ s tt (set_errors (fun _ => []) s)) by reflexivity.
  set (sa := push_event EvAcquire
               (set_self (add_semaphore (-1)) (set_errors (fun _ => []) s))).
  rewrite (bind_Ret _ _ _ tt sa).
  2:{ unfold acquire. simpl. apply Z.ltb_lt in Hsem. rewrite Hsem. reflexivity. }
  set (sb := push_event (EvMkdir (save_path task)) sa).
  unfold try_finally, task_body.
  rewrite (bind_Ret _ _ sa tt sb) by reflexivity.
  rewrite Hmk. simpl lift.
  rewrite (bind_Ret _ _ sb tt sb) by reflexivity.
  rewrite (bind_Ret _ _ sb (max_retries (self s)) sb) by reflexivity.
  destruct (Z.to_nat (max_retries (self s))) as [|m] eqn:Hn; [lia|].
  cbn [seq for_range].
  destruct (pace_quiet w (push_event (EvAttempt 0) sb)) as (s1 & Hpace & Hd1).
  assert (Hself : self s1 = add_semaphore (-1) (self s)) by apply Hd1.
  set (s2 := push_event (EvOnSuccess (url task))
               (set_self (add_downloaded 1)
                  (push_event (EvWrite (save_path task) content)
                     (push_event (EvGet (request (self s) task hs)) s1)))).
  assert (Hbody : attempt_body urlparse w task 0 sb = (Ret (Return true), s2)).
  { unfold attempt_body.
    rewrite (bind_Ret _ _ sb tt (push_event (EvAttempt 0) sb)) by reflexivity.
    apply try_except_Ret. unfold attempt_try.
    rewrite (bind_Ret _ _ _ _ _ Hpace).
    rewrite (bind_Ret _ _ s1 (self s1) s1) by reflexivity.
    rewrite Hself.
    change (_build_headers urlparse (add_semaphore (-1) (self s)) task)
      with (_build_headers urlparse (self s) task).
    change (request (add_semaphore (-1) (self s)) task)
      with (request (self s) task).
    rewrite Hb. simpl lift.
    rewrite (bind_Ret _ _ s1 hs s1) by reflexivity.
    rewrite (bind_Ret _ _ s1 tt (push_event (EvGet (request (self s) task hs)) s1))
      by reflexivity.
    unfold with_response. rewrite Hg. simpl lift.
    rewrite (bind_Ret _ _ _ 200 _) by reflexivity. simpl.
    rewrite Hr. simpl lift.
    rewrite (bind_Ret _ _ _ content _) by reflexivity.
    rewrite Hw. simpl lift.
    unfold maybe_coroutine. rewrite Hs. reflexivity. }
  unfold bind at 1.
  rewrite (bind_Ret _ _ sb (Return true) s2 Hbody).
  simpl.
  eexists. split; [reflexivity|].
  unfold same_settings. simpl. rewrite Hself. simpl.
  repeat split; try reflexivity; lia.
Qed.

Lemma same_settings_trans dl1 dl2 dl3 :
  same_settings dl1 dl2 -> same_settings dl2 dl3 -> same_settings dl1 dl3.
Proof.
  intros (H1 & H2 & H3 & H4) (H1' & H2' & H3' & H4'). unfold same_settings.
  rewrite H1', H2', H3', H4'. repeat split; assumption.
Qed.

Lemma count_True_all (jobs : list (World * DownloadTask)) :
  count_True (map (fun _ => Returns true) jobs) = Z.of_nat (length jobs).
Proof.
  induction jobs as [|job jobs IH]; [reflexivity|].
  cbn [map count_True length]. rewrite IH. lia.
Qed.

Lemma gather_all_succeed urlparse jobs :
  forall s,
    0 < _semaphore (self s) ->
    0 < max_retries (self s) ->
    Forall (succeeds_at_once urlparse (self s)) jobs ->
    exists s',
      gather urlparse jobs s = (Ret (map (fun _ => Returns true) jobs), s') /\
      same_settings (self s) (self s') /\
      __total_downloaded (self s')
        = __total_downloaded (self s) + Z.of_nat (length jobs) /\
      __total_failed (self s') = __total_failed (self s).
Proof.
  induction jobs as [|[w task] jobs IH]; intros s Hsem Hmr Hall.
  - exists s. split; [reflexivity|]. unfold same_settings. simpl.
    repeat split; try reflexivity. lia.
  - apply Forall_cons in Hall. destruct Hall as [Hjob Hrest].
    destruct (download_task_succeeds_at_once urlparse w task s Hsem Hmr Hjob)
      as (s1 & Hrun & Hset & Hdown & Hfail).
    destruct (IH s1) as (s2 & Hrun2 & Hset2 & Hdown2 & Hfail2).
    + destruct Hset as (_ & _ & _ & Hs). rewrite Hs. exact Hsem.
    + destruct Hset as (_ & _ & Hm & _). rewrite Hm. exact Hmr.
    + eapply Forall_impl; [exact Hrest|]. intros job.
      apply succeeds_at_once_settings, Hset.
    + exists s2. split.
      * cbn [gather]. rewrite Hrun.
        rewrite (bind_Ret _ _ _ _ _ Hrun2). reflexivity.
      * split; [exact (same_settings_trans _ _ _ Hset Hset2)|].
        cbn [length]. split; lia.
Qed.

Lemma download_tasks_counts_twice urlparse jobs s :
  0 < _semaphore (self s) ->
  0 < max_retries (self s) ->
  Forall (succeeds_at_once urlparse (self s)) jobs ->
  let N := Z.of_nat (length jobs) in
  let r := download_tasks urlparse jobs s in
  fst r = Ret (N, 0) /\
  __total_downloaded (self (snd r)) = __total_downloaded (self s) + 2 * N /\
  __total_failed (self (snd r)) = __total_failed (self s).
Proof.
  intros Hsem Hmr Hall N r.
  destruct (gather_all_succeed urlparse jobs s Hsem Hmr Hall)
    as (s1 & Hrun & _ & Hdown & Hfail).
  subst r. unfold download_tasks.
  rewrite (bind_Ret _ _ _ _ _ Hrun). rewrite count_True_all. fold N.
  simpl. rewrite Hdown, Hfail. fold N.
  replace (N - N) with 0 by lia.
  repeat split; lia.
Qed.

(** C1. One batch of one task that succeeds at its first attempt, on a new
    engine: [download_tasks] returns [(1, 0)], and [stats] shows 2
    downloads for the one task: [download_task] has counted it, and
    [download_tasks] adds its own count on top.  A second such batch brings
    the counter to 4, not to 2. *)
Theorem batch_counts_each_success_twice :
  let r1 := download_tasks urlparse_ascii [(world_status 200, plain_task)]
              (fresh_state (engine 3)) in
  let r2 := download_tasks urlparse_ascii [(world_status 200, plain_task)] (snd r1) in
  fst r1 = Ret (1, 0) /\
  on_success_calls (snd r1) = 1%nat /\
  stats (self (snd r1)) !! "downloaded" = Some 2 /\
  stats (self (snd r1)) !! "failed" = Some 0 /\
  stats (self (snd r1)) !! "total" = Some 2 /\
  fst r2 = Ret (1, 0) /\
  stats (self (snd r2)) !! "downloaded" = Some 4.
Proof. vm_compute. repeat split; reflexivity. Qed.

(** C2. A task whose [on_success] raises, answered with status 200.  With
    [max_retries = 1]: the file is written, [on_success] is called, its
    exception is caught by the [except] of the attempt, and [on_error] is
    called as well; the call returns [False] and the task is counted both
    as downloaded and as failed.  With [max_retries = 3], [on_success] is
    called three times and [on_error] once.  When the destination
    directory cannot be created, neither hook is called. *)
Theorem raising_on_success_fires_both_hooks :
  let r1 := download_task urlparse_ascii (world_status 200) task_raising_on_success
              (fresh_state (engine 1)) in
  let r3 := download_task urlparse_ascii (world_status 200) task_raising_on_success
              (fresh_state (engine 3)) in
  let r0 := download_task urlparse_ascii world_no_parent plain_task
              (fresh_state (engine 3)) in
  (fst r1 = Ret false /\
   on_success_calls (snd r1) = 1%nat /\ on_error_calls (snd r1) = 1%nat /\
   __total_downloaded (self (snd r1)) = 1 /\ __total_failed (self (snd r1)) = 1) /\
  (fst r3 = Ret false /\
   on_success_calls (snd r3) = 3%nat /\ on_error_calls (snd r3) = 1%nat) /\
  (on_success_calls (snd r0) = 0%nat /\ on_error_calls (snd r0) = 0%nat).
Proof. vm_compute. repeat split; reflexivity. Qed.

(** C5 at 404 and at 500, with [max_retries = 3]: three attempts are made,
    and the error handed to [on_error] has an empty list and
    [attempts = 0]. *)
Theorem status_404_leaves_no_error :
  Forall
    (fun status =>
       let r := download_task urlparse_ascii (world_status status) plain_task
                  (fresh_state (engine 3)) in
       let err := TaskDownloadError.__init__ (url plain_task) [] in
       fst r = Ret false /\
       attempts_made (snd r) = 3%nat /\
       reported (snd r) = [err] /\
       TaskDownloadError.original_errors err = [] /\
       TaskDownloadError.attempts err = 0)
    [404; 500].
Proof.
  assert (Hany : forall status, status = 404 \/ status = 500 ->
            let r := download_task urlparse_ascii (world_status status) plain_task
                       (fresh_state (engine 3)) in
            let err := TaskDownloadError.__init__ (url plain_task) [] in
            fst r = Ret false /\
            attempts_made (snd r) = 3%nat /\
            reported (snd r) = [err] /\
            TaskDownloadError.original_errors err = [] /\
            TaskDownloadError.attempts err = 0).
  { intros status Hstatus r err.
    destruct (other_status_leaves_no_error urlparse_ascii (world_status status)
                plain_task (fresh_state (engine 3)))
      as (Hatt & Hres & Hrep & Herrs & Hn & _).
    - reflexivity.
    - reflexivity.
    - intros i _. exists status. split.
      + eexists. split; reflexivity.
      + destruct Hstatus as [-> | ->]; repeat split; discriminate.
    - fold r in Hatt, Hres, Hrep. fold err in Hres, Hrep, Herrs, Hn.
      repeat split; assumption. }
  constructor; [apply Hany; left; reflexivity|].
  constructor; [apply Hany; right; reflexivity|].
  constructor.
Qed.

(** Whatever [mkdir] raises leaves [download_task] as it is: no attempt, no
    hook, no count. *)
Lemma mkdir_exception_propagates urlparse w task s e :
  0 < _semaphore (self s) ->
  mkdir w (save_path task) = Raises e ->
  exists s',
    download_task urlparse w task s = (Raise e, s') /\
    attempts_made s' = attempts_made s /\
    on_success_calls s' = on_success_calls s /\
    on_error_calls s' = on_error_calls s /\
    __total_failed (self s') = __total_failed (self s) /\
    __total_downloaded (self s') = __total_downloaded (self s).
Proof.
  intros Hsem Hmk.
  unfold download_task, async_with_semaphore.
  rewrite (bind_Ret _ _ s tt (set_errors (fun _ => []) s)) by reflexivity.
  set (sa := push_event EvAcquire
               (set_self (add_semaphore (-1)) (set_errors (fun _ => []) s))).
  rewrite (bind_Ret _ _ _ tt sa).
  2:{ unfold acquire. simpl. apply Z.ltb_lt in Hsem. rewrite Hsem. reflexivity. }
  unfold try_finally, task_body.
  rewrite (bind_Ret _ _ sa tt (push_event (EvMkdir (save_path task)) sa))
    by reflexivity.
  rewrite Hmk. simpl.
  eexists. split; [reflexivity|]. repeat split; reflexivity.
Qed.

(** C6. The destination directory cannot be created: [mkdir] is called
    before the [try], so its [OSError] leaves [download_task] as an
    exception.  No attempt is made, no hook is called, nothing is counted;
    the slot is given back. *)
Theorem mkdir_error_escapes_download_task :
  let r := download_task urlparse_ascii world_no_parent plain_task
             (fresh_state (engine 3)) in
  fst r = Raise (mkExc OSError "[Errno 13] Permission denied") /\
  attempts_made (snd r) = 0%nat /\
  on_error_calls (snd r) = 0%nat /\
  __total_failed (self (snd r)) = 0 /\
  _semaphore (self (snd r)) = 3.
Proof. vm_compute. repeat split; reflexivity. Qed.

(** *** The semaphore and the event loop *)

Lemma never_parks_ret {A} (a : A) : never_parks (ret a).
Proof. intros s; discriminate. Qed.

Lemma never_parks_gets {A} (f : State -> A) : never_parks (gets f).
Proof. intros s; discriminate. Qed.

Lemma never_parks_modify (f : State -> State) : never_parks (modify f).
Proof. intros s; discriminate. Qed.

Lemma never_parks_lift {A} (o : Outcome A) : never_parks (lift o).
Proof. destruct o; intros s; discriminate. Qed.

Lemma never_parks_bind {A B} (m : M A) (k : A -> M B) :
  never_parks m -> (forall a, never_parks (k a)) -> never_parks (bind m k).
Proof.
  intros Hm Hk s. unfold bind. specialize (Hm s).
  destruct (m s) as [[a|e|] s1]; simpl in *.
  - apply Hk.
  - discriminate.
  - exfalso. apply Hm. reflexivity.
Qed.

Lemma never_parks_try_except {A} (body : M A) (handler : PyExc -> M A) :
  never_parks body -> (forall e, never_parks (handler e)) ->
  never_parks (try_except body handler).
Proof.
  intros Hb Hh s. unfold try_except. specialize (Hb s).
  destruct (body s) as [[a|e|] s1]; simpl in *.
  - discriminate.
  - destruct (isinstance_Exception e); [apply Hh|discriminate].
  - exact Hb.
Qed.


Lemma never_parks_random_delay w lo hi : never_parks (random_delay w lo hi).
Proof.
  unfold random_delay. destruct (Qle_bool hi 0); [apply never_parks_ret|].
  apply never_parks_bind; [apply never_parks_gets|]. intros k.
  apply never_parks_bind; [apply never_parks_modify|]. intros _.
  apply never_parks_modify.
Qed.

Ltac never_parks_atom :=
  first [ apply never_parks_ret
        | apply never_parks_gets
        | apply never_parks_modify
        | apply never_parks_lift
        | apply never_parks_random_delay ].

Ltac never_parks_seq :=
  apply never_parks_bind; [never_parks_atom|intros ?].

Ltac never_parks_run := repeat first [never_parks_atom | never_parks_seq].

Lemma never_parks_attempt_body urlparse w task i :
  never_parks (attempt_body urlparse w task i).
Proof.
  unfold attempt_body, emit. never_parks_seq.
  apply never_parks_try_except.
  - unfold attempt_try, pace, emit.
    apply never_parks_bind.
    { apply never_parks_bind; [apply never_parks_gets|].
      intros [[lo hi]|]; never_parks_atom. }
    intros _. do 3 never_parks_seq.
    unfold with_response, append_error, emit, maybe_coroutine.
    never_parks_seq.
    destruct (_ =? 200); [never_parks_run|].
    destruct (_ =? 429); [never_parks_run|].
    destruct (_ =? 403); never_parks_run.
  - intros e. unfold attempt_except, append_error.
    do 2 never_parks_seq.
    destruct (_ <? _); never_parks_run.
Qed.






Lemma acquire_enters (s s' : State) :
  acquire s = (Ret tt, s') <->
  0 < _semaphore (self s) /\
  s' = push_event EvAcquire (set_self (add_semaphore (-1)) s).
Proof.
  unfold acquire. destruct (0 <? _semaphore (self s)) eqn:Hfree.
  - apply Z.ltb_lt in Hfree. split.
    + intros [= <-]. split; [exact Hfree|reflexivity].
    + intros [_ ->]. reflexivity.
  - apply Z.ltb_ge in Hfree. split; [discriminate|]. intros [Hpos _]. lia.
Qed.

Lemma release_leaves (s : State) :
  release s = (Ret tt, push_event EvRelease (set_self (add_semaphore 1) s)).
Proof. reflexivity. Qed.


Lemma enter_directory_keeps w task s :
  errors (snd (enter_directory w task s)) = errors s /\
  _semaphore (self (snd (enter_directory w task s))) = _semaphore (self s) /\
  fst (enter_directory w task s) <> Hang.
Proof.
  unfold enter_directory, bind. simpl.
  destruct (mkdir w (save_path task)) as [[]|e]; simpl;
    repeat split; discriminate.
Qed.

Lemma never_parks_report_failure task : never_parks (report_failure task).
Proof. unfold report_failure, emit, maybe_coroutine. never_parks_run. Qed.

Lemma semaphore_attempt_body urlparse w task i v :
  preserves (fun s => _semaphore (self s) = v) (attempt_body urlparse w task i).
Proof.
  apply preserves_attempt_body with (allowed := fun _ => True);
    first [exact (fun _ => I) | exact (fun _ _ => I)
          | intros s ev _ H; exact H
          | intros s x H; exact H
          | intros s H; exact H].
Qed.

Lemma semaphore_report_failure task v :
  preserves (fun s => _semaphore (self s) = v) (report_failure task).
Proof.
  apply preserves_report_failure with (allowed := fun _ => True);
    first [exact (fun _ => I)
          | intros s ev _ H; exact H
          | intros s x H; exact H].
Qed.

Module EventLoopFacts.
Import EventLoop.








Lemma count_inside_insert (cs : list Coroutine) (i : nat) (old new : Coroutine) :
  cs !! i = Some old ->
  count_inside (<[i := new]> cs)
    = count_inside cs - (if inside old then 1 else 0) + (if inside new then 1 else 0).
Proof.
  revert i. induction cs as [|c cs IH]; intros i Hi.
  - discriminate.
  - destruct i as [|i]; simpl in *.
    + injection Hi as ->. lia.
    + rewrite (IH i Hi). lia.
Qed.

Lemma count_inside_waiting (jobs : list (World * DownloadTask)) :
  count_inside (map Waiting jobs) = 0.
Proof. induction jobs as [|j jobs IH]; simpl; [reflexivity|exact IH]. Qed.

Lemma after_mkdir_inside job r next :
  after_mkdir job r = Some next -> inside next = true.
Proof. destruct r as [mr|e|]; intros [= <-]; reflexivity. Qed.

Lemma after_attempt_inside job errs todo r next :
  after_attempt job errs todo r = Some next -> inside next = true.
Proof. destruct r as [[| |b]|e|]; intros [= <-]; reflexivity. Qed.

Lemma balanced_step urlparse (c : Z) (l l' : Loop) :
  step urlparse l l' -> balanced c l -> balanced c l'.
Proof.
  intros Hstep [Hv Hsum]. unfold balanced, holders in *.
  destruct Hstep as [l i job s' Hi Hacq
                    |l i job r s' next Hi Hrun Hnext
                    |l i job errs a todo r s' next Hi Hrun Hnext
                    |l i job errs r s' result Hi Hrun Hres
                    |l i job result s' Hi Hrel]; simpl;
    rewrite (count_inside_insert _ _ _ _ Hi); simpl.
  - apply acquire_enters in Hacq. destruct Hacq as [Hfree ->]. simpl. lia.
  - destruct (enter_directory_keeps (fst job) (snd job) (with_errors [] (shared l)))
      as (_ & Hsem & _).
    rewrite Hrun in Hsem. simpl in Hsem.
    rewrite (after_mkdir_inside _ _ _ Hnext), Hsem. lia.
  - pose proof (semaphore_attempt_body urlparse (fst job) (snd job) a _
                  (with_errors errs (shared l)) eq_refl) as Hsem.
    rewrite Hrun in Hsem. simpl in Hsem.
    rewrite (after_attempt_inside _ _ _ _ _ Hnext), Hsem. lia.
  - pose proof (semaphore_report_failure (snd job) _
                  (with_errors errs (shared l)) eq_refl) as Hsem.
    rewrite Hrun in Hsem. simpl in Hsem. rewrite Hsem. lia.
  - rewrite release_leaves in Hrel. injection Hrel as <-. simpl. lia.
Qed.

Lemma balanced_reachable urlparse (c : Z) (l0 l : Loop) :
  rtc (step urlparse) l0 l -> balanced c l0 -> balanced c l.
Proof.
  intros Hreach. induction Hreach as [l0|l0 l1 l2 Hstep _ IH]; intros H0.
  - exact H0.
  - apply IH. exact (balanced_step urlparse c l0 l1 Hstep H0).
Qed.

Lemma balanced_start (s : State) (jobs : list (World * DownloadTask)) :
  0 <= _semaphore (self s) -> balanced (_semaphore (self s)) (start s jobs).
Proof.
  intros Hc. unfold balanced, holders, start. simpl.
  rewrite count_inside_waiting. lia.
Qed.

End EventLoopFacts.


(** *** The theorems at concrete inputs *)

(** C3 on an engine with [max_retries = 3] whose every connection fails. *)
Lemma transient_failures_exhaust_retries_witness :
  let s := fresh_state (engine 3) in
  let r := download_task urlparse_ascii world_offline plain_task s in
  Z.of_nat (attempts_made (snd r)) = 3 /\
  fst r = Ret false /\
  map TaskDownloadError.attempts (reported (snd r)) = [3] /\
  map (fun err => length (TaskDownloadError.original_errors err)) (reported (snd r))
    = [3%nat].
Proof.
  intros s r.
  destruct (transient_failures_exhaust_retries urlparse_ascii world_offline plain_task
              (fun i => mkExc ClientError ("connection reset " +:+ pretty i)) s)
    as (Hatt & Hres & _ & _ & Hrep & _).
  - reflexivity.
  - discriminate.
  - reflexivity.
  - intros i _. split; [|reflexivity].
    eapply raises_in_get; reflexivity.
  - split; [exact Hatt|]. split; [exact Hres|].
    fold r in Hrep. rewrite Hrep. split; reflexivity.
Defined.

(** C3 as it was stated fails: every attempt of the task meets a broken
    connection, three attempts are made, and the call does not return
    [False]: the task's [on_error] raises, and that exception leaves
    [download_task]. *)
Lemma failed_task_with_raising_on_error_does_not_return :
  let s := fresh_state (engine 3) in
  let r := download_task urlparse_ascii world_offline task_raising_on_error s in
  (forall i,
     attempt_raises urlparse_ascii (self s) world_offline task_raising_on_error i
       (mkExc ClientError ("connection reset " +:+ pretty i))) /\
  attempts_made (snd r) = 3%nat /\
  on_error_calls (snd r) = 1%nat /\
  fst r = Raise (mkExc ValueError "hook failed") /\
  fst r <> Ret false.
Proof.
  intros s r. split; [|split; [|split; [|split]]].
  - intros i. eapply raises_in_get; reflexivity.
  - vm_compute. reflexivity.
  - vm_compute. reflexivity.
  - vm_compute. reflexivity.
  - vm_compute. discriminate.
Qed.


(** C7 as it was stated fails: [Origin] is not the scheme and the host of
    the referer.  For a referer with user information and a port the
    header carries both, and for a referer whose authority opens a bracket
    and does not close it there are no headers at all: [urlparse] raises
    [ValueError], and so does [_build_headers]. *)
Lemma origin_is_not_scheme_and_host :
  let task := with_referer "https://user:pw@example.com:8443/x" plain_task in
  let unbalanced := with_referer "http://[::1/x" plain_task in
  (exists hs,
     _build_headers urlparse_ascii (engine 3) task = Returns hs /\
     hs !! "Referer" = Some "https://user:pw@example.com:8443/x" /\
     hs !! "Origin" = Some "https://user:pw@example.com:8443" /\
     hs !! "Origin" <> Some "https://example.com") /\
  _build_headers urlparse_ascii (engine 3) unbalanced
    = Raises (mkExc ValueError "Invalid IPv6 URL").
Proof.
  intros task unbalanced. split; [|reflexivity].
  assert (Hparse : urlparse_ascii "https://user:pw@example.com:8443/x"
                   = Returns {| scheme := "https";
                                netloc := "user:pw@example.com:8443" |})
    by (vm_compute; reflexivity).
  unfold _build_headers.
  change (referer task) with "https://user:pw@example.com:8443/x".
  rewrite bool_decide_eq_false_2 by discriminate.
  rewrite Hparse. eexists. split; [reflexivity|].
  split; [rewrite lookup_insert_ne by discriminate; apply lookup_insert_eq|].
  split; [apply lookup_insert_eq|].
  rewrite lookup_insert_eq. discriminate.
Qed.




(** ** What one call can do, for every world *)

Lemma grows_refl s : grows 0 0 0 0 0 s s.
Proof.
  unfold grows, same_config. rewrite !Nat.add_0_r, !Z.add_0_r.
  repeat split; try reflexivity. exists []. reflexivity.
Qed.

Lemma grows_trans d ka ks ke kx d' ka' ks' ke' kx' s s1 s2 :
  grows d ka ks ke kx s s1 -> grows d' ka' ks' ke' kx' s1 s2 ->
  grows (d + d') (ka + ka') (ks + ks') (ke + ke') (kx + kx') s s2.
Proof.
  intros ((C1 & C2 & C3 & C4 & C5) & Hsem & Hd & Hf & Ha & Hs & He & Hx & Hr & new & Hlog)
         ((D1 & D2 & D3 & D4 & D5) & Hsem' & Hd' & Hf' & Ha' & Hs' & He' & Hx' & Hr' & new' & Hlog').
  unfold grows, same_config.
  rewrite D1, D2, D3, D4, D5, C1, C2, C3, C4, C5, Hsem', Hsem, Hd', Hd, Hf', Hf,
    Ha', Ha, Hs', Hs, He', He.
  repeat split; try reflexivity; try lia.
  - intros Hke. rewrite Hr', Hr by lia. reflexivity.
  - exists (new' ++ new). rewrite Hlog', Hlog, app_assoc. reflexivity.
Qed.

(** [grows_trans] with the sums worked out, and the bound on the recorded
    errors relaxed. *)
Lemma grows_step d ka ks ke kx d' ka' ks' ke' kx' d'' ka'' ks'' ke'' kx'' s s1 s2 :
  grows d ka ks ke kx s s1 -> grows d' ka' ks' ke' kx' s1 s2 ->
  d'' = d + d' -> ka'' = (ka + ka')%nat -> ks'' = (ks + ks')%nat ->
  ke'' = (ke + ke')%nat -> (kx + kx' <= kx'')%nat ->
  grows d'' ka'' ks'' ke'' kx'' s s2.
Proof.
  intros H1 H2 -> -> -> -> Hkx.
  destruct (grows_trans _ _ _ _ _ _ _ _ _ _ _ _ _ H1 H2)
    as (Hc & Hsem & Hd & Hf & Ha & Hs & He & Hx & Hr & Hlog).
  unfold grows. split; [exact Hc|]. split; [exact Hsem|]. split; [exact Hd|].
  split; [exact Hf|]. split; [exact Ha|]. split; [exact Hs|]. split; [exact He|].
  split; [lia|]. split; [exact Hr|exact Hlog].
Qed.

Ltac grows_chain H1 H2 :=
  refine (grows_step _ _ _ _ _ _ _ _ _ _ _ _ _ _ _ _ _ _ H1 H2 _ _ _ _ _); lia.

Ltac grows_explicit :=
  unfold grows, same_config, attempts_made, on_success_calls, on_error_calls,
    reported, count_events; simpl;
  repeat split; try reflexivity; try (rewrite ?length_app; simpl; lia);
  try (intros; discriminate);
  first [ exists []; reflexivity
        | eexists [_]; reflexivity
        | eexists [_; _]; reflexivity
        | eexists [_; _; _]; reflexivity
        | eexists [_; _; _; _]; reflexivity
        | eexists [_; _; _; _; _]; reflexivity ].

Lemma random_delay_grows w lo hi s :
  exists s', random_delay w lo hi s = (Ret tt, s') /\ grows 0 0 0 0 0 s s'.
Proof.
  unfold random_delay. destruct (Qle_bool hi 0).
  - exists s. split; [reflexivity|apply grows_refl].
  - eexists. split; [reflexivity|]. grows_explicit.
Qed.

Lemma pace_grows w s :
  exists s', pace w s = (Ret tt, s') /\ grows 0 0 0 0 0 s s'.
Proof.
  unfold pace. unfold bind, gets.
  destruct (delay_range (self s)) as [[lo hi]|].
  - apply random_delay_grows.
  - exists s. split; [reflexivity|apply grows_refl].
Qed.

Lemma with_response_grows w task i req s :
  exists ks kx,
    grows 0 0 ks 0 kx s (snd (with_response w task i req s)) /\
    response_ok (fst (with_response w task i req s)) ks kx.
Proof.
  unfold with_response, bind, lift, emit, modify, append_error, maybe_coroutine,
    random_delay, gets, ret, raise.
  destruct (session_get w i req) as [status|e]; simpl.
  2:{ exists 0%nat, 0%nat. split; [apply grows_refl|simpl; lia]. }
  destruct (status =? 200).
  { destruct (response_read w i) as [content|e]; simpl.
    2:{ exists 0%nat, 0%nat. split; [apply grows_refl|simpl; lia]. }
    destruct (file_write w i (save_path task) content) as [[]|e]; simpl.
    2:{ exists 0%nat, 0%nat. split; [apply grows_refl|simpl; lia]. }
    exists 1%nat, 0%nat.
    destruct (on_success task i) as [[]|e]; simpl; split; try grows_explicit;
      auto. }
  destruct (status =? 429);
    [exists 0%nat, 1%nat; simpl; split; [grows_explicit|split; [reflexivity|lia]]|].
  destruct (status =? 403);
    [exists 0%nat, 1%nat; simpl; split; [grows_explicit|split; [reflexivity|lia]]|].
  exists 0%nat, 0%nat. simpl. split; [apply grows_refl|split; [reflexivity|lia]].
Qed.

Lemma attempt_try_grows urlparse w task i s :
  exists ks kx,
    grows 0 0 ks 0 kx s (snd (attempt_try urlparse w task i s)) /\
    response_ok (fst (attempt_try urlparse w task i s)) ks kx.
Proof.
  unfold attempt_try.
  destruct (pace_grows w s) as (s1 & Hpace & H1).
  rewrite (bind_Ret _ _ _ _ _ Hpace).
  rewrite (bind_Ret _ _ s1 (self s1) s1) by reflexivity.
  destruct (_build_headers urlparse (self s1) task) as [hs|e]; simpl lift.
  - rewrite (bind_Ret _ _ s1 hs s1) by reflexivity.
    rewrite (bind_Ret _ _ s1 tt (push_event (EvGet (request (self s1) task hs)) s1))
      by reflexivity.
    destruct (with_response_grows w task i (request (self s1) task hs)
                (push_event (EvGet (request (self s1) task hs)) s1))
      as (ks & kx & H2 & Hok).
    exists ks, kx. split; [|exact Hok].
    assert (Hget : grows 0 0 0 0 0 s1
                     (push_event (EvGet (request (self s1) task hs)) s1))
      by grows_explicit.
    assert (H12 : grows 0 0 0 0 0 s
                    (push_event (EvGet (request (self s1) task hs)) s1))
      by grows_chain H1 Hget.
    grows_chain H12 H2.
  - exists 0%nat, 0%nat. split; [exact H1|simpl; lia].
Qed.

Lemma attempt_except_grows w i e s :
  exists c s',
    attempt_except w i e s = (Ret c, s') /\ grows 0 0 0 0 1 s s' /\
    (c = Next \/ c = Break).
Proof.
  unfold attempt_except, bind, append_error, modify, gets, random_delay, emit, ret.
  simpl. destruct (Z.of_nat i <? max_retries (self s) - 1); simpl.
  - eexists _, _. split; [reflexivity|]. split; [grows_explicit|left; reflexivity].
  - eexists _, _. split; [reflexivity|]. split; [grows_explicit|right; reflexivity].
Qed.

Lemma attempt_body_grows urlparse w task i s :
  exists ks,
    grows 0 1 ks 0 1 s (snd (attempt_body urlparse w task i s)) /\
    iteration_ok (fst (attempt_body urlparse w task i s)) ks.
Proof.
  unfold attempt_body.
  rewrite (bind_Ret _ _ s tt (push_event (EvAttempt i) s)) by reflexivity.
  destruct (attempt_try_grows urlparse w task i (push_event (EvAttempt i) s))
    as (ks & kx & H1 & Hok).
  assert (H0 : grows 0 1 0 0 0 s (push_event (EvAttempt i) s)) by grows_explicit.
  unfold try_except.
  destruct (attempt_try urlparse w task i (push_event (EvAttempt i) s))
    as [[c|e|] s1]; simpl in *.
  - exists ks. destruct c as [| |b]; simpl in *.
    + split; [grows_chain H0 H1|lia].
    + contradiction.
    + split; [grows_chain H0 H1|]. split; apply Hok.
  - destruct Hok as [Hks ->]. destruct (isinstance_Exception e).
    + destruct (attempt_except_grows w i e s1) as (c & s2 & Hrun & H2 & Hc).
      rewrite Hrun. simpl. exists ks. split.
      * assert (H01 : grows 0 1 ks 0 0 s s1) by grows_chain H0 H1.
        grows_chain H01 H2.
      * destruct Hc as [-> | ->]; simpl; exact Hks.
    + simpl. exists ks. split; [grows_chain H0 H1|exact Hks].
  - contradiction.
Qed.

Lemma for_range_grows (body : nat -> M LoopCtl) :
  (forall i s, exists ks,
      grows 0 1 ks 0 1 s (snd (body i s)) /\ iteration_ok (fst (body i s)) ks) ->
  forall idxs s,
    exists ka ks,
      (ka <= length idxs)%nat /\ (ks <= ka)%nat /\
      grows 0 ka ks 0 ka s (snd (for_range idxs body s)) /\
      loop_ok (fst (for_range idxs body s)) ks.
Proof.
  intros Hbody. induction idxs as [|i rest IH]; intros s.
  - exists 0%nat, 0%nat. simpl. repeat split; try lia. apply grows_refl.
  - cbn [for_range length].
    destruct (Hbody i s) as (ks & H1 & Hok).
    destruct (body i s) as [[c|e|] s1] eqn:Hb; simpl in H1, Hok.
    + rewrite (bind_Ret _ _ _ _ _ Hb). destruct c as [| |b].
      * destruct (IH s1) as (ka' & ks' & Hka & Hks & H2 & Hok2).
        exists (1 + ka')%nat, (ks + ks')%nat.
        split; [lia|]. split; [lia|]. split; [grows_chain H1 H2|].
        revert Hok2.
        destruct (fst (for_range rest body s1)) as [[b|]|e|]; simpl;
          intros Hok2; try exact I; [|contradiction].
        destruct Hok2 as [-> ?]. split; [reflexivity|lia].
      * exists 1%nat, ks. simpl. repeat split; try lia; try apply H1.
      * destruct Hok as [-> ->]. exists 1%nat, 1%nat. simpl.
        repeat split; try lia; try apply H1.
    + rewrite (bind_Raise _ _ _ _ _ Hb).
      exists 1%nat, ks. simpl. repeat split; try lia; try apply H1.
    + contradiction.
Qed.

Lemma task_body_grows urlparse w task s :
  exists ka ks ke,
    (ka <= Z.to_nat (max_retries (self s)))%nat /\ (ks <= ka)%nat /\ (ke <= 1)%nat /\
    grows 0 ka ks ke ka s (snd (task_body urlparse w task s)) /\
    task_ok (fst (task_body urlparse w task s)) ks ke /\
    reported_within task (length (errors s) + ka) ke s
      (snd (task_body urlparse w task s)).
Proof.
  unfold task_body.
  rewrite (bind_Ret _ _ s tt (push_event (EvMkdir (save_path task)) s)) by reflexivity.
  set (sb := push_event (EvMkdir (save_path task)) s).
  assert (H0 : grows 0 0 0 0 0 s sb) by (subst sb; grows_explicit).
  destruct (mkdir w (save_path task)) as [[]|e]; simpl lift.
  2:{ exists 0%nat, 0%nat, 0%nat. simpl.
      repeat split; try lia; try apply H0. intros ?; discriminate. }
  rewrite (bind_Ret _ _ sb tt sb) by reflexivity.
  rewrite (bind_Ret _ _ sb (max_retries (self s)) sb) by reflexivity.
  destruct (for_range_grows (attempt_body urlparse w task)
              (attempt_body_grows urlparse w task)
              (seq 0 (Z.to_nat (max_retries (self s)))) sb)
    as (ka & ks & Hka & Hks & H1 & Hok).
  rewrite length_seq in Hka.
  assert (H01 : grows 0 ka ks 0 ka s
                  (snd (for_range (seq 0 (Z.to_nat (max_retries (self s))))
                          (attempt_body urlparse w task) sb)))
    by grows_chain H0 H1.
  destruct (for_range (seq 0 (Z.to_nat (max_retries (self s))))
              (attempt_body urlparse w task) sb) as [[[b|]|e|] sc] eqn:Hloop;
    simpl in H01, Hok.
  - rewrite (bind_Ret _ _ _ _ _ Hloop). destruct Hok as [-> Hks1].
    exists ka, ks, 0%nat. simpl.
    repeat split; try lia; try apply H01. intros ?; discriminate.
  - rewrite (bind_Ret _ _ _ _ _ Hloop).
    exists ka, ks, 1%nat. split; [lia|]. split; [lia|]. split; [lia|].
    unfold report_failure, bind, modify, gets, emit, maybe_coroutine, lift, ret, raise.
    simpl.
    assert (Hrep : grows 0 0 0 1 0 sc
              (push_event (EvOnError (TaskDownloadError.__init__ (url task) (errors sc)))
                 (set_self (add_failed 1) sc))) by grows_explicit.
    assert (Hwithin : reported_within task (length (errors s) + ka) 1 s
              (push_event (EvOnError (TaskDownloadError.__init__ (url task) (errors sc)))
                 (set_self (add_failed 1) sc))).
    { intros _. exists (errors sc). split.
      - destruct H01 as (_ & _ & _ & _ & _ & _ & _ & _ & Hr & _).
        unfold reported in *. simpl. rewrite Hr by reflexivity. reflexivity.
      - apply H01. }
    destruct (on_error task _) as [[]|e]; simpl;
      (split; [grows_chain H01 Hrep|split; [try reflexivity; exact I|exact Hwithin]]).
  - rewrite (bind_Raise _ _ _ _ _ Hloop).
    exists ka, ks, 0%nat. simpl.
    repeat split; try lia; try apply H01. intros ?; discriminate.
  - contradiction.
Qed.

(** [download_task] with a free slot, whatever the world answers: it comes
    back, the slot is returned, the counters have moved with the hook
    calls, and an error handed to [on_error] lists at most one cause per
    attempt. *)
Lemma download_task_grows urlparse w task s :
  0 < _semaphore (self s) ->
  exists ka ks ke,
    (ka <= Z.to_nat (max_retries (self s)))%nat /\ (ks <= ka)%nat /\ (ke <= 1)%nat /\
    grows 0 ka ks ke ka s (snd (download_task urlparse w task s)) /\
    task_ok (fst (download_task urlparse w task s)) ks ke /\
    reported_within task ka ke s (snd (download_task urlparse w task s)).
Proof.
  intros Hsem.
  unfold download_task, async_with_semaphore.
  rewrite (bind_Ret _ _ s tt (set_errors (fun _ => []) s)) by reflexivity.
  set (sa := push_event EvAcquire
               (set_self (add_semaphore (-1)) (set_errors (fun _ => []) s))).
  rewrite (bind_Ret _ _ _ tt sa).
  2:{ unfold acquire. simpl. apply Z.ltb_lt in Hsem. rewrite Hsem. reflexivity. }
  assert (H0 : grows (-1) 0 0 0 0 s sa) by (subst sa; grows_explicit).
  destruct (task_body_grows urlparse w task sa)
    as (ka & ks & ke & Hka & Hks & Hke & H1 & Hok & Hwithin).
  exists ka, ks, ke. split; [exact Hka|]. split; [exact Hks|]. split; [exact Hke|].
  unfold try_finally.
  destruct (task_body urlparse w task sa) as [r sb]. simpl in H1, Hok, Hwithin.
  assert (H2 : grows 1 0 0 0 0 sb (push_event EvRelease (set_self (add_semaphore 1) sb)))
    by grows_explicit.
  assert (H01 : grows (-1) ka ks ke ka s sb) by grows_chain H0 H1.
  assert (H012 : grows 0 ka ks ke ka s
                   (push_event EvRelease (set_self (add_semaphore 1) sb)))
    by grows_chain H01 H2.
  assert (Hw : reported_within task ka ke s
                 (push_event EvRelease (set_self (add_semaphore 1) sb))).
  { intros Hone. destruct (Hwithin Hone) as (errs & Hrep & Hlen).
    exists errs. split; [exact Hrep|exact Hlen]. }
  destruct r as [b|e|]; simpl in *;
    [split; [exact H012|split; [exact Hok|exact Hw]]..|contradiction].
Qed.

Lemma download_task_parked urlparse w task s :
  _semaphore (self s) <= 0 ->
  download_task urlparse w task s = (Hang, set_errors (fun _ => []) s).
Proof.
  intros Hsem. unfold download_task, async_with_semaphore.
  rewrite (bind_Ret _ _ s tt (set_errors (fun _ => []) s)) by reflexivity.
  unfold bind, acquire. simpl.
  apply Z.ltb_ge in Hsem. rewrite Hsem. reflexivity.
Qed.

(** X1. Whatever the world answers and whatever the hooks do,
    [download_task] starts at most [max_retries] attempts (none when
    [max_retries <= 0], none when it parks). *)
Theorem download_task_attempts_bounded urlparse w task s :
  let s' := snd (download_task urlparse w task s) in
  (attempts_made s <= attempts_made s')%nat /\
  (attempts_made s' <= attempts_made s + Z.to_nat (max_retries (self s)))%nat.
Proof.
  intros s'. subst s'.
  destruct (Z_lt_le_dec 0 (_semaphore (self s))) as [Hsem|Hsem].
  - destruct (download_task_grows urlparse w task s Hsem)
      as (ka & ks & ke & Hka & _ & _ & Hg & _ & _).
    destruct Hg as (_ & _ & _ & _ & Ha & _). rewrite Ha. lia.
  - rewrite (download_task_parked urlparse w task s Hsem). simpl.
    unfold attempts_made, count_events. simpl. lia.
Qed.

(** X2. The result of [download_task] and the hooks, for every world and
    every behaviour of the hooks: [on_error] is called at most once and
    [on_success] at most once per attempt; a call that returns [True] has
    called [on_success] and has not called [on_error]; a call that returns
    [False] has called [on_error] exactly once. *)
Theorem download_task_result_and_hooks urlparse w task s :
  let r := download_task urlparse w task s in
  (on_error_calls (snd r) <= on_error_calls s + 1)%nat /\
  (on_success_calls (snd r) - on_success_calls s
     <= attempts_made (snd r) - attempts_made s)%nat /\
  match fst r with
  | Ret true =>
      on_error_calls (snd r) = on_error_calls s /\
      (on_success_calls s < on_success_calls (snd r))%nat
  | Ret false => on_error_calls (snd r) = (on_error_calls s + 1)%nat
  | Raise _ => True
  | Hang => on_error_calls (snd r) = on_error_calls s /\
            on_success_calls (snd r) = on_success_calls s
  end.
Proof.
  intros r. subst r.
  destruct (Z_lt_le_dec 0 (_semaphore (self s))) as [Hsem|Hsem].
  - destruct (download_task_grows urlparse w task s Hsem)
      as (ka & ks & ke & Hka & Hks & Hke & Hg & Hok & _).
    destruct Hg as (_ & _ & _ & _ & Ha & Hs & He & _).
    rewrite Ha, Hs, He. split; [lia|]. split; [lia|].
    destruct (fst (download_task urlparse w task s)) as [[|]|e|]; simpl in Hok.
    + destruct Hok as [-> ?]. split; lia.
    + subst ke. reflexivity.
    + exact I.
    + contradiction.
  - rewrite (download_task_parked urlparse w task s Hsem). simpl.
    unfold on_error_calls, on_success_calls, attempts_made, count_events. simpl.
    repeat split; lia.
Qed.

(** X3. [download_task] keeps its two counters in step with the hooks: over
    one call [__total_downloaded] grows by the number of calls of
    [on_success] and [__total_failed] by the number of calls of [on_error],
    for every world (a hook that raises is counted all the same). *)
Theorem download_task_counts_hook_calls urlparse w task s :
  let s' := snd (download_task urlparse w task s) in
  __total_downloaded (self s') - __total_downloaded (self s)
    = Z.of_nat (on_success_calls s') - Z.of_nat (on_success_calls s) /\
  __total_failed (self s') - __total_failed (self s)
    = Z.of_nat (on_error_calls s') - Z.of_nat (on_error_calls s).
Proof.
  intros s'. subst s'.
  destruct (Z_lt_le_dec 0 (_semaphore (self s))) as [Hsem|Hsem].
  - destruct (download_task_grows urlparse w task s Hsem)
      as (ka & ks & ke & _ & _ & _ & Hg & _ & _).
    destruct Hg as (_ & _ & Hd & Hf & _ & Hs & He & _).
    rewrite Hd, Hf, Hs, He. lia.
  - rewrite (download_task_parked urlparse w task s Hsem). simpl.
    unfold on_error_calls, on_success_calls, count_events. simpl. lia.
Qed.

(** X4. [download_task] never touches the settings of the engine
    ([max_concurrent], [delay_range], [max_retries], [default_headers],
    the timeout), never lowers a counter, and only adds to the log of
    what has happened. *)
Theorem download_task_keeps_settings urlparse w task s :
  let s' := snd (download_task urlparse w task s) in
  same_config (self s) (self s') /\
  __total_downloaded (self s) <= __total_downloaded (self s') /\
  __total_failed (self s) <= __total_failed (self s') /\
  exists new, events s' = events s ++ new.
Proof.
  intros s'. subst s'.
  destruct (Z_lt_le_dec 0 (_semaphore (self s))) as [Hsem|Hsem].
  - destruct (download_task_grows urlparse w task s Hsem)
      as (ka & ks & ke & _ & _ & _ & Hg & _ & _).
    destruct Hg as (Hc & _ & Hd & Hf & _ & _ & _ & _ & _ & new & Hlog).
    split; [exact Hc|]. split; [lia|]. split; [lia|].
    exists (rev new). unfold events. rewrite Hlog, rev_app_distr. reflexivity.
  - rewrite (download_task_parked urlparse w task s Hsem). simpl.
    unfold same_config, events. simpl. repeat split; try lia.
    exists []. rewrite app_nil_r. reflexivity.
Qed.


Lemma count_True_bounds (rs : list (Outcome bool)) :
  0 <= count_True rs <= Z.of_nat (length rs).
Proof.
  induction rs as [|[[|]|e] rs IH]; cbn [count_True length]; lia.
Qed.

Lemma gather_grows urlparse jobs :
  forall s,
    0 < _semaphore (self s) ->
    exists rs s' ka ks ke kx,
      gather urlparse jobs s = (Ret rs, s') /\
      length rs = length jobs /\
      grows 0 ka ks ke kx s s' /\
      count_True rs <= Z.of_nat ks.
Proof.
  induction jobs as [|[w task] jobs IH]; intros s Hsem.
  - exists [], s, 0%nat, 0%nat, 0%nat, 0%nat. simpl.
    repeat split; try reflexivity; try lia; try apply grows_refl.
  - destruct (download_task_grows urlparse w task s Hsem)
      as (ka & ks & ke & _ & _ & _ & H1 & Hok & _).
    cbn [gather].
    destruct (download_task urlparse w task s) as [[b|e|] s1]; simpl in H1, Hok;
      [| |contradiction].
    + destruct (IH s1) as (rs & s2 & ka' & ks' & ke' & kx' & Hrun & Hlen & H2 & Hcnt).
      { destruct H1 as (_ & Hs & _). rewrite Hs. lia. }
      rewrite (bind_Ret _ _ _ _ _ Hrun).
      eexists _, s2, _, _, _, _. split; [reflexivity|].
      split; [simpl; rewrite Hlen; reflexivity|].
      split; [exact (grows_trans _ _ _ _ _ _ _ _ _ _ _ _ _ H1 H2)|].
      destruct b; cbn [count_True]; [destruct Hok|]; lia.
    + destruct (IH s1) as (rs & s2 & ka' & ks' & ke' & kx' & Hrun & Hlen & H2 & Hcnt).
      { destruct H1 as (_ & Hs & _). rewrite Hs. lia. }
      rewrite (bind_Ret _ _ _ _ _ Hrun).
      eexists _, s2, _, _, _, _. split; [reflexivity|].
      split; [simpl; rewrite Hlen; reflexivity|].
      split; [exact (grows_trans _ _ _ _ _ _ _ _ _ _ _ _ _ H1 H2)|].
      cbn [count_True]. lia.
Qed.

(** X6. A batch on an engine with a free slot, whatever happens to the
    tasks: [download_tasks] does not raise (a task that raises is counted
    as failed) and does not park; it returns [(d, f)] with [d >= 0],
    [f >= 0] and [d + f] the number of tasks, [d] being at most the number
    of [on_success] calls made; the settings are unchanged and the slot is
    free again. *)
Theorem download_tasks_accounts_for_every_task urlparse jobs s :
  0 < _semaphore (self s) ->
  exists d f s',
    download_tasks urlparse jobs s = (Ret (d, f), s') /\
    0 <= d /\ 0 <= f /\ d + f = Z.of_nat (length jobs) /\
    d <= Z.of_nat (on_success_calls s') - Z.of_nat (on_success_calls s) /\
    same_config (self s) (self s') /\
    _semaphore (self s') = _semaphore (self s).
Proof.
  intros Hsem.
  destruct (gather_grows urlparse jobs s Hsem)
    as (rs & s1 & ka & ks & ke & kx & Hrun & Hlen & Hg & Hcnt).
  unfold download_tasks. rewrite (bind_Ret _ _ _ _ _ Hrun).
  pose proof (count_True_bounds rs) as Hb. rewrite Hlen in Hb.
  eexists _, _, _. split; [reflexivity|].
  destruct Hg as (Hc & Hs & _ & _ & _ & Hsucc & _).
  unfold on_success_calls, count_events in *. simpl.
  rewrite Hsucc, Hs.
  split; [lia|]. split; [lia|]. split; [lia|]. split; [lia|].
  split; [exact Hc|lia].
Qed.

(** X7. The empty batch: [download_tasks([])] returns [(0, 0)] and leaves
    the statistics and the log as they were; it needs no slot. *)
Theorem download_tasks_empty urlparse s :
  exists s',
    download_tasks urlparse [] s = (Ret (0, 0), s') /\
    stats (self s') = stats (self s) /\
    events s' = events s /\
    _semaphore (self s') = _semaphore (self s).
Proof.
  exists (set_self (add_failed 0) (set_self (add_downloaded 0) s)).
  split; [reflexivity|]. simpl.
  unfold stats. simpl. rewrite !Z.add_0_r. repeat split; reflexivity.
Qed.

(** X8. With [max_retries <= 0] the loop has no iteration: no request is
    sent, and the task is reported failed at once, with an empty error
    list. *)
Theorem download_task_without_retries urlparse w task s :
  0 < _semaphore (self s) ->
  max_retries (self s) <= 0 ->
  mkdir w (save_path task) = Returns tt ->
  let err := TaskDownloadError.__init__ (url task) [] in
  let r := download_task urlparse w task s in
  attempts_made (snd r) = attempts_made s /\
  fst r = after_on_error task err /\
  reported (snd r) = reported s ++ [err] /\
  on_success_calls (snd r) = on_success_calls s /\
  __total_failed (self (snd r)) = __total_failed (self s) + 1.
Proof.
  intros Hsem Hmr Hmkdir err r.
  destruct (download_task_exhausts urlparse w task (fun _ => []) s Hsem Hmkdir)
    as (s' & Hrun & Hatt & Hsucc & Hrep & Hfailed & _).
  { intros i s0 Hi. lia. }
  rewrite flat_map_nothing in Hrun, Hrep. fold err in Hrun, Hrep.
  subst r. rewrite Hrun. simpl.
  replace (Z.to_nat (max_retries (self s))) with 0%nat in Hatt by lia.
  rewrite Nat.add_0_r in Hatt.
  repeat split; assumption.
Qed.

Lemma attempt_body_limited urlparse w task i status s :
  attempt_status urlparse (self s) w task i status ->
  status = 429 \/ status = 403 ->
  exists s',
    attempt_body urlparse w task i s = (Ret Next, s') /\
    delta 1 [status_error status] s s'.
Proof.
  intros (hs & Hh & Hget) Hstatus. unfold attempt_body.
  rewrite (bind_Ret _ _ s tt (push_event (EvAttempt i) s)) by reflexivity.
  destruct (pace_quiet w (push_event (EvAttempt i) s)) as (s1 & Hpace & Hd1).
  assert (Hself : self s1 = self s) by apply Hd1.
  set (s2 := push_event (EvGet (request (self s) task hs)) s1).
  assert (Hd2 : delta 0 [] s1 s2) by (apply delta_push; repeat split).
  set (s3 := set_errors (fun es => es ++ [status_error status]) s2).
  assert (Hd3 : delta 0 [status_error status] s2 s3) by apply delta_append.
  destruct (random_delay_quiet w (if status =? 429 then 5 else 2)
              (if status =? 429 then 10 else 4) s3) as (s4 & Hdelay & Hd4).
  exists s4. split.
  - apply try_except_Ret. unfold attempt_try.
    rewrite (bind_Ret _ _ _ _ _ Hpace).
    rewrite (bind_Ret _ _ s1 (self s1) s1) by reflexivity.
    rewrite Hself, Hh. simpl lift.
    rewrite (bind_Ret _ _ s1 hs s1) by reflexivity.
    rewrite (bind_Ret _ _ s1 tt s2) by reflexivity.
    unfold with_response. rewrite Hget. simpl lift.
    rewrite (bind_Ret _ _ _ status _) by reflexivity.
    unfold status_error in *.
    destruct Hstatus as [-> | ->]; simpl in *.
    + unfold append_error.
      rewrite (bind_Ret _ _ s2 tt s3) by reflexivity.
      rewrite (bind_Ret _ _ _ _ _ Hdelay). reflexivity.
    + unfold append_error.
      rewrite (bind_Ret _ _ s2 tt s3) by reflexivity.
      rewrite (bind_Ret _ _ _ _ _ Hdelay). reflexivity.
  - apply (delta_trans 1 [] 0 [status_error status] s _ s4 (delta_attempt i s)).
    apply (delta_trans 0 [] 0 [status_error status] _ s1 s4 Hd1).
    apply (delta_trans 0 [] 0 [status_error status] _ s2 s4 Hd2).
    apply (delta_trans 0 [status_error status] 0 [] _ s3 s4 Hd3 Hd4).
Qed.

(** X9. A task that is answered 429 or 403 at every attempt: each answer is
    recorded as [Exception("HTTP 429: Rate limited")] or
    [Exception("HTTP 403: Forbidden")], the engine goes on to the next
    attempt, and after [max_retries] attempts [on_error] receives these
    exceptions in the order of the attempts. *)
Theorem rate_limited_attempts_are_recorded urlparse w task (status : nat -> Z) s :
  0 < _semaphore (self s) ->
  mkdir w (save_path task) = Returns tt ->
  (forall i, Z.of_nat i < max_retries (self s) ->
     attempt_status urlparse (self s) w task i (status i) /\
     (status i = 429 \/ status i = 403)) ->
  let n := Z.to_nat (max_retries (self s)) in
  let err := TaskDownloadError.__init__ (url task)
               (map (fun i => status_error (status i)) (seq 0 n)) in
  let r := download_task urlparse w task s in
  attempts_made (snd r) = (attempts_made s + n)%nat /\
  fst r = after_on_error task err /\
  reported (snd r) = reported s ++ [err] /\
  on_success_calls (snd r) = on_success_calls s /\
  TaskDownloadError.attempts err = Z.of_nat n /\
  __total_failed (self (snd r)) = __total_failed (self s) + 1.
Proof.
  intros Hsem Hmkdir Hall n err r.
  destruct (download_task_exhausts urlparse w task
              (fun i => [status_error (status i)]) s Hsem Hmkdir)
    as (s' & Hrun & Hatt & Hsucc & Hrep & Hfailed & _).
  { intros i s0 Hi Hself.
    destruct (Hall i) as [Hstatus Hcode]; [lia|].
    destruct (attempt_body_limited urlparse w task i (status i) s0)
      as (s1 & Hbody & Hd); [rewrite Hself; exact Hstatus|exact Hcode|].
    exists Next, s1. split; [exact Hbody|]. split; [exact Hd|]. left. reflexivity. }
  fold n in Hrun, Hatt, Hrep.
  rewrite (flat_map_singletons (fun i => status_error (status i))) in Hrun, Hrep.
  fold err in Hrun, Hrep. subst r. rewrite Hrun. simpl.
  repeat split; try assumption.
  rewrite length_map, length_seq. reflexivity.
Qed.

Lemma on_error_calls_reported s : on_error_calls s = length (reported s).
Proof.
  unfold on_error_calls, reported, count_events. rewrite length_rev.
  induction (log s) as [|ev lg IH]; [reflexivity|].
  destruct ev; simpl; try exact IH. rewrite IH. reflexivity.
Qed.

(** The first iterations of the loop when each of them ends in [continue]. *)
Lemma for_range_prefix (body : nat -> M LoopCtl) (errs : nat -> list PyExc)
    (k : nat) (dl : ImageDownloader) (rest : list nat) :
  (forall i s0, (i < k)%nat -> self s0 = dl ->
     exists s1, body i s0 = (Ret Next, s1) /\ delta 1 (errs i) s0 s1) ->
  forall m a s, (a + m = k)%nat -> self s = dl ->
    exists s',
      for_range (seq a m ++ rest) body s = for_range rest body s' /\
      delta m (flat_map errs (seq a m)) s s'.
Proof.
  intros Hbody. induction m as [|m IH]; intros a s Ham Hself.
  - exists s. split; [reflexivity|apply delta_refl].
  - destruct (Hbody a s) as (s1 & Hrun & Hd1); [lia|exact Hself|].
    destruct (IH (S a) s1) as (s' & Hloop & Hd'); [lia| |].
    { destruct Hd1 as [Hs1 _]. rewrite Hs1. exact Hself. }
    exists s'. split.
    + cbn [seq app for_range]. rewrite (bind_Ret _ _ _ _ _ Hrun). exact Hloop.
    + apply (delta_trans 1 (errs a) m _ s s1 s' Hd1 Hd').
Qed.

Lemma attempt_body_succeeds urlparse w task i s :
  succeeds_at urlparse (self s) w task i ->
  exists s',
    attempt_body urlparse w task i s = (Ret (Return true), s') /\
    self s' = add_downloaded 1 (self s) /\
    attempts_made s' = (attempts_made s + 1)%nat /\
    on_success_calls s' = (on_success_calls s + 1)%nat /\
    reported s' = reported s.
Proof.
  intros (hs & content & Hb & Hg & Hr & Hw & Hs).
  destruct (pace_quiet w (push_event (EvAttempt i) s)) as (s1 & Hpace & Hd1).
  destruct Hd1 as (Hself & _ & Hatt & Hsucc & Hrep).
  exists (push_event (EvOnSuccess (url task))
            (set_self (add_downloaded 1)
               (push_event (EvWrite (save_path task) content)
                  (push_event (EvGet (request (self s) task hs)) s1)))).
  split.
  - unfold attempt_body.
    rewrite (bind_Ret _ _ s tt (push_event (EvAttempt i) s)) by reflexivity.
    apply try_except_Ret. unfold attempt_try.
    rewrite (bind_Ret _ _ _ _ _ Hpace).
    rewrite (bind_Ret _ _ s1 (self s1) s1) by reflexivity.
    rewrite Hself. simpl self. rewrite Hb. simpl lift.
    rewrite (bind_Ret _ _ s1 hs s1) by reflexivity.
    rewrite (bind_Ret _ _ s1 tt (push_event (EvGet (request (self s) task hs)) s1))
      by reflexivity.
    unfold with_response. rewrite Hg. simpl lift.
    rewrite (bind_Ret _ _ _ 200 _) by reflexivity. simpl.
    rewrite Hr. simpl lift.
    rewrite (bind_Ret _ _ _ content _) by reflexivity.
    rewrite Hw. simpl lift.
    unfold maybe_coroutine. rewrite Hs. reflexivity.
  - unfold attempts_made, on_success_calls, reported, count_events in *.
    simpl in *. rewrite Hself, Hatt, Hsucc, Hrep.
    repeat split; try reflexivity; lia.
Qed.

Lemma download_task_succeeds_at urlparse w task (e : nat -> PyExc) (k : nat) s :
  0 < _semaphore (self s) ->
  mkdir w (save_path task) = Returns tt ->
  Z.of_nat k < max_retries (self s) ->
  (forall i, (i < k)%nat ->
     attempt_raises urlparse (self s) w task i (e i) /\
     isinstance_Exception (e i) = true) ->
  succeeds_at urlparse (self s) w task k ->
  exists s',
    download_task urlparse w task s = (Ret true, s') /\
    attempts_made s' = (attempts_made s + k + 1)%nat /\
    on_success_calls s' = (on_success_calls s + 1)%nat /\
    reported s' = reported s /\
    __total_downloaded (self s') = __total_downloaded (self s) + 1 /\
    __total_failed (self s') = __total_failed (self s).
Proof.
  intros Hsem Hmkdir Hk Hfail Hok.
  unfold download_task, async_with_semaphore.
  rewrite (bind_Ret _ _ s tt (set_errors (fun _ => []) s)) by reflexivity.
  set (sa := push_event EvAcquire
               (set_self (add_semaphore (-1)) (set_errors (fun _ => []) s))).
  rewrite (bind_Ret _ _ _ tt sa).
  2:{ unfold acquire. simpl. apply Z.ltb_lt in Hsem. rewrite Hsem. reflexivity. }
  set (sb := push_event (EvMkdir (save_path task)) sa).
  unfold try_finally, task_body.
  rewrite (bind_Ret _ _ sa tt sb) by reflexivity.
  rewrite Hmkdir. simpl lift.
  rewrite (bind_Ret _ _ sb tt sb) by reflexivity.
  rewrite (bind_Ret _ _ sb (max_retries (self s)) sb) by reflexivity.
  replace (Z.to_nat (max_retries (self s)))
    with (k + S (Z.to_nat (max_retries (self s)) - S k))%nat by lia.
  rewrite seq_app. cbn [seq].
  destruct (for_range_prefix (attempt_body urlparse w task) (fun i => [e i]) k
              (add_semaphore (-1) (self s))
              ((0 + k)%nat :: seq (S (0 + k)) (Z.to_nat (max_retries (self s)) - S k)))
    with (m := k) (a := 0%nat) (s := sb) as (s1 & Hloop & Hd1).
  { intros i s0 Hi Hself.
    destruct (Hfail i Hi) as [Hraises Hexc].
    destruct (attempt_body_raises urlparse w task i (e i) s0) as (s1 & Hbody & Hd).
    - rewrite Hself. apply attempt_raises_semaphore, Hraises.
    - exact Hexc.
    - exists s1. split; [|exact Hd]. rewrite Hbody, Hself. simpl.
      replace (Z.of_nat i <? max_retries (self s) - 1) with true; [reflexivity|].
      symmetry. apply Z.ltb_lt. lia. }
  { lia. }
  { reflexivity. }
  destruct Hd1 as (Hself1 & _ & Hatt1 & Hsucc1 & Hrep1).
  destruct (attempt_body_succeeds urlparse w task k s1)
    as (s2 & Hbody & Hself2 & Hatt2 & Hsucc2 & Hrep2).
  { rewrite Hself1. exact Hok. }
  unfold bind at 1. rewrite Hloop. cbn [for_range Nat.add].
  rewrite (bind_Ret _ _ _ _ _ Hbody). simpl.
  eexists. split; [reflexivity|].
  subst sa sb.
  unfold attempts_made, on_success_calls, reported, count_events in *.
  simpl in *. rewrite Hself2, Hself1, Hatt2, Hatt1, Hsucc2, Hsucc1, Hrep2, Hrep1.
  simpl. repeat split; try reflexivity; try lia.
Qed.

(** X10. A task whose first [k] attempts raise and whose next attempt goes
    through, with [k < max_retries]: [download_task] returns [True] after
    [k + 1] attempts, [on_success] is called once and [on_error] not at
    all, the download is counted once, and the exceptions of the failed
    attempts are reported to no one. *)
Theorem download_task_succeeds_after_retries urlparse w task (e : nat -> PyExc)
    (k : nat) s :
  0 < _semaphore (self s) ->
  mkdir w (save_path task) = Returns tt ->
  Z.of_nat k < max_retries (self s) ->
  (forall i, (i < k)%nat ->
     attempt_raises urlparse (self s) w task i (e i) /\
     isinstance_Exception (e i) = true) ->
  succeeds_at urlparse (self s) w task k ->
  let r := download_task urlparse w task s in
  fst r = Ret true /\
  attempts_made (snd r) = (attempts_made s + k + 1)%nat /\
  on_success_calls (snd r) = (on_success_calls s + 1)%nat /\
  on_error_calls (snd r) = on_error_calls s /\
  reported (snd r) = reported s /\
  __total_downloaded (self (snd r)) = __total_downloaded (self s) + 1 /\
  __total_failed (self (snd r)) = __total_failed (self s).
Proof.
  intros Hsem Hmkdir Hk Hfail Hok r.
  destruct (download_task_succeeds_at urlparse w task e k s Hsem Hmkdir Hk Hfail Hok)
    as (s' & Hrun & Hatt & Hsucc & Hrep & Hd & Hf).
  subst r. rewrite Hrun. simpl.
  rewrite !on_error_calls_reported, Hrep.
  repeat split; assumption.
Qed.

(** X11. The error [download_task] hands to [on_error] never overstates:
    it is built for the task's url, its [attempts] is the length of its
    list, and that is at most the number of attempts made by this call, so
    at most [max_retries].  (It can understate: see C5.) *)
Theorem reported_error_never_overstates urlparse w task s :
  let s' := snd (download_task urlparse w task s) in
  reported s' = reported s \/
  exists errs,
    reported s' = reported s ++ [TaskDownloadError.__init__ (url task) errs] /\
    TaskDownloadError.attempts (TaskDownloadError.__init__ (url task) errs)
      = Z.of_nat (length errs) /\
    (length errs <= attempts_made s' - attempts_made s)%nat /\
    (length errs <= Z.to_nat (max_retries (self s)))%nat.
Proof.
  intros s'. subst s'.
  destruct (Z_lt_le_dec 0 (_semaphore (self s))) as [Hsem|Hsem].
  - destruct (download_task_grows urlparse w task s Hsem)
      as (ka & ks & ke & Hka & _ & Hke & Hg & _ & Hwithin).
    destruct Hg as (_ & _ & _ & _ & Ha & _ & _ & _ & Hr & _).
    destruct ke as [|[|ke]]; [left; apply Hr; reflexivity| |lia].
    right. destruct (Hwithin eq_refl) as (errs & Hrep & Hlen).
    exists errs. split; [exact Hrep|]. split; [reflexivity|].
    rewrite Ha. split; lia.
  - left. rewrite (download_task_parked urlparse w task s Hsem). reflexivity.
Qed.

Module EventLoopProgress.
Import EventLoop.

(** Either some coroutine is inside, or none is and then either one waits
    or all are done. *)
Lemma coroutines_cases (cs : list Coroutine) :
  (exists i c, cs !! i = Some c /\ inside c = true) \/
  (count_inside cs = 0 /\
   ((exists i job, cs !! i = Some (Waiting job)) \/ Forall is_done cs)).
Proof.
  induction cs as [|c cs IH].
  - right. split; [reflexivity|]. right. constructor.
  - destruct (inside c) eqn:Hc.
    + left. exists 0%nat, c. split; [reflexivity|exact Hc].
    + destruct IH as [(i & c' & Hi & Hc')|[Hcount Hrest]].
      * left. exists (S i), c'. split; [exact Hi|exact Hc'].
      * right. split; [simpl; rewrite Hc; lia|].
        destruct c as [job|job|job errs todo|job result|result]; try discriminate.
        -- left. exists 0%nat, job. reflexivity.
        -- destruct Hrest as [(i & job & Hi)|Hall].
           ++ left. exists (S i), job. exact Hi.
           ++ right. constructor; [exact I|exact Hall].
Qed.

(** A coroutine that is inside can always take its next step. *)
Lemma inside_steps urlparse (l : Loop) (i : nat) (c : Coroutine) :
  coroutines l !! i = Some c -> inside c = true -> exists l', step urlparse l l'.
Proof.
  intros Hi Hc.
  destruct c as [job|job|job errs [|a todo]|job result|result]; try discriminate.
  - destruct (enter_directory_keeps (fst job) (snd job) (with_errors [] (shared l)))
      as (_ & _ & Hpark).
    destruct (enter_directory (fst job) (snd job) (with_errors [] (shared l)))
      as [r s'] eqn:Hrun. simpl in Hpark.
    destruct r as [mr|e|]; [| |exfalso; apply Hpark; reflexivity];
      eexists; eapply (step_mkdir urlparse l i job); [exact Hi|exact Hrun|reflexivity
                                                    |exact Hi|exact Hrun|reflexivity].
  - pose proof (never_parks_report_failure (snd job) (with_errors errs (shared l)))
      as Hpark.
    destruct (report_failure (snd job) (with_errors errs (shared l)))
      as [r s'] eqn:Hrun. simpl in Hpark.
    destruct r as [b|e|]; [| |exfalso; apply Hpark; reflexivity];
      eexists; eapply (step_report urlparse l i job errs);
        [exact Hi|exact Hrun|reflexivity|exact Hi|exact Hrun|reflexivity].
  - pose proof (never_parks_attempt_body urlparse (fst job) (snd job) a
                  (with_errors errs (shared l))) as Hpark.
    destruct (attempt_body urlparse (fst job) (snd job) a (with_errors errs (shared l)))
      as [r s'] eqn:Hrun. simpl in Hpark.
    destruct r as [[| |b]|e|]; [| | | |exfalso; apply Hpark; reflexivity];
      eexists; eapply (step_attempt urlparse l i job errs a todo);
        first [exact Hi|exact Hrun|reflexivity].
  - eexists. apply (step_leave urlparse l i job result); [exact Hi|reflexivity].
Qed.

Lemma lookup_waiting (jobs : list (World * DownloadTask)) (i : nat) (c : Coroutine) :
  map Waiting jobs !! i = Some c -> exists job, c = Waiting job.
Proof.
  revert i. induction jobs as [|j jobs IH]; intros i Hi.
  - discriminate.
  - destruct i as [|i]; simpl in Hi.
    + injection Hi as <-. exists j. reflexivity.
    + exact (IH i Hi).
Qed.

End EventLoopProgress.

(** X12. A batch cannot deadlock on the semaphore when there is a slot at
    all: in every state the event loop can reach from the start of a batch
    on an engine whose semaphore holds at least 1, whatever the
    interleaving, either some coroutine can take a step or every coroutine
    is done.  A coroutine that waits at the semaphore is never left there:
    when nobody is inside, a slot is free and it enters. *)
Theorem event_loop_never_deadlocks urlparse s jobs l :
  1 <= _semaphore (self s) ->
  rtc (EventLoop.step urlparse) (EventLoop.start s jobs) l ->
  (exists l', EventLoop.step urlparse l l') \/
  Forall EventLoop.is_done (EventLoop.coroutines l).
Proof.
  intros Hc Hreach.
  destruct (EventLoopFacts.balanced_reachable urlparse (_semaphore (self s)) _ _ Hreach)
    as [Hv Hsum].
  { apply EventLoopFacts.balanced_start. lia. }
  destruct (EventLoopProgress.coroutines_cases (EventLoop.coroutines l))
    as [(i & c & Hi & Hin)|[Hcount [(i & job & Hi)|Hall]]].
  - left. exact (EventLoopProgress.inside_steps urlparse l i c Hi Hin).
  - left. eexists. apply (EventLoop.step_enter urlparse l i job); [exact Hi|].
    apply acquire_enters. split; [|reflexivity].
    unfold EventLoop.holders in Hsum. lia.
  - right. exact Hall.
Qed.

(** X13. On an engine that [__init__] has built with [max_concurrent = 0]
    no coroutine of a batch ever enters, whatever the interleaving: the
    event loop has no step to take from the start of the batch, so the
    start is the only state it reaches. *)
Theorem event_loop_without_slot_cannot_start urlparse dr mr t dh dl jobs s :
  __init__ 0 dr mr t dh = Returns dl ->
  self s = dl ->
  (~ exists l', EventLoop.step urlparse (EventLoop.start s jobs) l') /\
  (forall l, rtc (EventLoop.step urlparse) (EventLoop.start s jobs) l ->
             l = EventLoop.start s jobs).
Proof.
  intros Hinit Hself.
  assert (Hsem : _semaphore (self s) = 0).
  { injection Hinit as <-. rewrite Hself. reflexivity. }
  assert (Hstuck : ~ exists l', EventLoop.step urlparse (EventLoop.start s jobs) l').
  { intros (l' & Hstep).
    inversion Hstep as [l i job s' Hi Hacq
                       |l i job r s' next Hi Hrun Hnext
                       |l i job errs a todo r s' next Hi Hrun Hnext
                       |l i job errs r s' result Hi Hrun Hres
                       |l i job result s' Hi Hrel]; subst; simpl in *;
      try (apply EventLoopProgress.lookup_waiting in Hi; destruct Hi as [? Hi];
           discriminate).
    apply acquire_enters in Hacq. lia. }
  split; [exact Hstuck|].
  intros l Hreach. apply rtc_inv in Hreach.
  destruct Hreach as [<-|(mid & Hstep & _)]; [reflexivity|].
  exfalso. apply Hstuck. exists mid. exact Hstep.
Qed.

(** *** [get_image_extension] *)

Lemma lower_ascii_idempotent (c : ascii) :
  lower_ascii (lower_ascii c) = lower_ascii c.
Proof. destruct c as [[] [] [] [] [] [] [] []]; reflexivity. Qed.

Lemma str_lower_idempotent (s : string) : str_lower (str_lower s) = str_lower s.
Proof.
  induction s as [|c s IH]; simpl; [reflexivity|].
  rewrite lower_ascii_idempotent, IH. reflexivity.
Qed.

Lemma str_lower_app (a b : string) :
  str_lower (a +:+ b) = str_lower a +:+ str_lower b.
Proof. induction a as [|c a IH]; simpl; [reflexivity|]. rewrite IH. reflexivity. Qed.

Lemma prefix_app (x b : string) : String.prefix x (x +:+ b) = true.
Proof.
  induction x as [|c x IH]; simpl; [destruct b; reflexivity|].
  destruct (Ascii.ascii_dec c c) as [_|Hne]; [exact IH|contradiction].
Qed.

Lemma str_in_app (x a b : string) : str_in x (a +:+ x +:+ b) = true.
Proof.
  induction a as [|c a IH].
  - change ("" +:+ x +:+ b) with (x +:+ b).
    pose proof (prefix_app x b) as H.
    destruct (x +:+ b); cbn [str_in]; rewrite H; reflexivity.
  - change ((String c a) +:+ x +:+ b) with (String c (a +:+ x +:+ b)).
    cbn [str_in]. rewrite IH. apply orb_true_r.
Qed.

(** X16. The answer of [get_image_extension] is one of the six
    extensions of its list; it occurs in the lower-cased URL, unless the
    URL has none of the six, and then the answer is [.jpg]. *)
Theorem get_image_extension_is_listed url :
  get_image_extension url ∈ image_extensions /\
  (str_in (get_image_extension url) (str_lower url) = true \/
   (get_image_extension url = ".jpg" /\
    Forall (fun ext => str_in ext (str_lower url) = false) image_extensions)).
Proof.
  unfold get_image_extension, image_extensions. cbn [first_extension].
  destruct (str_in ".jpg" (str_lower url)) eqn:H1;
    [split; [set_solver|left; exact H1]|].
  destruct (str_in ".jpeg" (str_lower url)) eqn:H2;
    [split; [set_solver|left; exact H2]|].
  destruct (str_in ".png" (str_lower url)) eqn:H3;
    [split; [set_solver|left; exact H3]|].
  destruct (str_in ".gif" (str_lower url)) eqn:H4;
    [split; [set_solver|left; exact H4]|].
  destruct (str_in ".webp" (str_lower url)) eqn:H5;
    [split; [set_solver|left; exact H5]|].
  destruct (str_in ".avif" (str_lower url)) eqn:H6;
    [split; [set_solver|left; exact H6]|].
  split; [set_solver|]. right. split; [reflexivity|].
  repeat constructor; assumption.
Qed.

(** X17. The place of the extension does not count, the order of the
    list does: a URL with [.jpg] anywhere in it gets [.jpg], whatever
    comes before and after (another extension at its end included). *)
Theorem get_image_extension_jpg_anywhere pre post :
  get_image_extension (pre +:+ ".jpg" +:+ post) = ".jpg".
Proof.
  unfold get_image_extension, image_extensions. cbn [first_extension].
  rewrite !str_lower_app.
  change (str_lower ".jpg") with ".jpg".
  rewrite str_in_app. reflexivity.
Qed.

(** X18. [get_image_extension] does not see letter case: lower-casing
    the URL first changes nothing. *)
Theorem get_image_extension_ignores_case url :
  get_image_extension (str_lower url) = get_image_extension url.
Proof. unfold get_image_extension. rewrite str_lower_idempotent. reflexivity. Qed.

(** *** [BrowserNavigationError] *)

(** X19. The fallback text of [reason or 'No reason provided'] is never
    used: the constructor of [kumo] builds what the one of [comics]
    builds, for every url and reason. *)
Theorem BrowserNavigationError_fallback_is_dead url reason :
  BrowserNavigationError.__init__ url reason
    = BrowserNavigationError.__init__comics url reason.
Proof.
  unfold BrowserNavigationError.__init__, BrowserNavigationError.__init__comics,
    BrowserNavigationError.str_or.
  destruct (bool_decide (reason = "")); reflexivity.
Qed.

(** *** The pauses of the engine *)

Section Pauses.

Variable dr : option (Q * Q).
Variable base : list Event.
Variable w : World.

Let K := pauses_since dr w base.

Lemma pauses_since_self s f :
  delay_range (f (self s)) = delay_range (self s) -> K s -> K (set_self f s).
Proof. intros Hf [Hdr Hnew]. split; [simpl; rewrite Hf; exact Hdr|exact Hnew]. Qed.

Lemma pauses_since_errors s f : K s -> K (set_errors f s).
Proof. intros H. exact H. Qed.

Lemma pauses_since_draw s : K s -> K (next_draw s).
Proof. intros H. exact H. Qed.

Lemma pauses_since_push s ev : pause_ok dr w ev -> K s -> K (push_event ev s).
Proof.
  intros Hev [Hdr (new & Hlog & Hok)]. split; [exact Hdr|].
  exists (ev :: new). split.
  - simpl. rewrite Hlog. reflexivity.
  - constructor; assumption.
Qed.

Lemma pauses_random_delay (lo hi : Q) :
  (dr = Some (lo, hi) \/ (lo, hi) = (5%Q, 10%Q) \/ (lo, hi) = (2%Q, 4%Q)
   \/ (lo, hi) = (2%Q, 5%Q)) ->
  preserves K (random_delay w lo hi).
Proof.
  intros Hrange s Hs. unfold random_delay.
  destruct (Qle_bool hi 0); [exact Hs|]. simpl.
  apply pauses_since_push; [|apply pauses_since_draw, Hs].
  exists lo, hi, (draws s). split; [reflexivity|exact Hrange].
Qed.

Lemma pauses_pace : preserves K (pace w).
Proof.
  intros s Hs. unfold pace, bind, gets.
  pose proof Hs as [Hdr _].
  destruct (delay_range (self s)) as [[lo hi]|] eqn:Edr; [|exact Hs].
  apply pauses_random_delay; [|exact Hs].
  left. symmetry. exact Hdr.
Qed.

Lemma pauses_attempt_body urlparse (task : DownloadTask) (i : nat) :
  preserves K (attempt_body urlparse w task i).
Proof.
  unfold attempt_body.
  apply preserves_bind;
    [intros s Hs; apply pauses_since_push; [exact I|exact Hs]|]. intros _.
  apply preserves_try_except.
  - unfold attempt_try.
    apply preserves_bind; [apply pauses_pace|]. intros _.
    apply preserves_bind; [apply preserves_gets|]. intros dl.
    apply preserves_bind; [apply preserves_lift|]. intros hs.
    apply preserves_bind;
      [intros s Hs; apply pauses_since_push; [exact I|exact Hs]|]. intros _.
    unfold with_response.
    apply preserves_bind; [apply preserves_lift|]. intros status.
    destruct (status =? 200).
    { apply preserves_bind; [apply preserves_lift|]. intros content.
      apply preserves_bind; [apply preserves_lift|]. intros _.
      apply preserves_bind;
        [intros s Hs; apply pauses_since_push; [exact I|exact Hs]|]. intros _.
      apply preserves_bind;
        [intros s Hs; apply pauses_since_self; [reflexivity|exact Hs]|]. intros _.
      apply preserves_bind;
        [intros s Hs; apply pauses_since_push; [exact I|exact Hs]|]. intros _.
      apply preserves_bind; [apply preserves_lift|]. intros _.
      apply preserves_ret. }
    destruct (status =? 429).
    { apply preserves_bind; [intros s Hs; apply pauses_since_errors, Hs|]. intros _.
      apply preserves_bind; [|intros _; apply preserves_ret].
      apply pauses_random_delay. right. left. reflexivity. }
    destruct (status =? 403).
    { apply preserves_bind; [intros s Hs; apply pauses_since_errors, Hs|]. intros _.
      apply preserves_bind; [|intros _; apply preserves_ret].
      apply pauses_random_delay. right. right. left. reflexivity. }
    apply preserves_ret.
  - intros e. unfold attempt_except.
    apply preserves_bind; [intros s Hs; apply pauses_since_errors, Hs|]. intros _.
    apply preserves_bind; [apply preserves_gets|]. intros mr.
    destruct (Z.of_nat i <? mr - 1); [|apply preserves_ret].
    apply preserves_bind; [|intros _; apply preserves_ret].
    apply pauses_random_delay. right. right. right. reflexivity.
Qed.

Lemma pauses_download_task urlparse (task : DownloadTask) :
  preserves K (download_task urlparse w task).
Proof.
  unfold download_task, async_with_semaphore.
  apply preserves_bind; [intros s Hs; apply pauses_since_errors, Hs|]. intros _.
  apply preserves_bind.
  { intros s Hs. unfold acquire. destruct (0 <? _semaphore (self s)); simpl.
    - apply pauses_since_push; [exact I|].
      apply pauses_since_self; [reflexivity|exact Hs].
    - exact Hs. }
  intros _. apply preserves_try_finally.
  - eapply preserves_task_body with (allowed := pause_ok dr w).
    + intros s d Hs. apply pauses_since_self; [reflexivity|exact Hs].
    + apply pauses_since_push.
    + intros err. exact I.
    + intros p. exact I.
    + apply pauses_attempt_body.
  - unfold release. apply preserves_bind.
    + intros s Hs. apply pauses_since_self; [reflexivity|exact Hs].
    + intros _ s Hs. apply pauses_since_push; [exact I|exact Hs].
Qed.

End Pauses.

(** X20. Where the pauses of [download_task] come from, for every world:
    each sleep made during a call is what [random.uniform] returned for
    one of four ranges, the engine's [delay_range] (the pacing pause before
    a request) or [(5, 10)], [(2, 4)], [(2, 5)] (the back-offs after a 429,
    after a 403 and after an exception).  The engine sleeps nowhere else,
    and no range depends on the number of the attempt. *)
Theorem download_task_pauses_come_from_four_ranges urlparse w task s :
  exists new,
    events (snd (download_task urlparse w task s)) = events s ++ new /\
    forall d, EvSleep d ∈ new -> engine_pause (delay_range (self s)) w d.
Proof.
  assert (Hstart : pauses_since (delay_range (self s)) w (log s) s).
  { split; [reflexivity|]. exists []. split; [reflexivity|constructor]. }
  apply (pauses_download_task _ _ w urlparse task) in Hstart.
  destruct Hstart as [_ (new & Hlog & Hok)].
  exists (rev new). split.
  - unfold events. rewrite Hlog, rev_app_distr. reflexivity.
  - intros d Hd. apply List.Forall_rev in Hok.
    rewrite Forall_forall in Hok. exact (Hok (EvSleep d) Hd).
Qed.

(** X21. An engine built with [max_concurrent = 0] is accepted by
    [__init__] and can download nothing: every batch with a task in it
    parks for ever, before any hook is called and with the statistics
    untouched. *)
Theorem zero_slot_engine_never_finishes urlparse dr mr t hs w task rest :
  exists dl,
    __init__ 0 dr mr t hs = Returns dl /\
    forall s, self s = dl ->
      let r := download_tasks urlparse ((w, task) :: rest) s in
      fst r = Hang /\
      stats (self (snd r)) = stats dl /\
      events (snd r) = events s.
Proof.
  eexists. split; [reflexivity|].
  intros s Hs r. subst r.
  assert (Hsem : _semaphore (self s) <= 0) by (rewrite Hs; simpl; lia).
  unfold download_tasks, bind. cbn [gather].
  rewrite (download_task_parked urlparse w task s Hsem). simpl.
  rewrite Hs. repeat split; reflexivity.
Qed.

(** *** [safe_title] *)

Lemma lstrip_suffix (t : list N) :
  exists blanks, t = blanks ++ lstrip t /\ Forall (fun c => isspace c = true) blanks.
Proof.
  induction t as [|c t (blanks & Ht & Hb)]; [exists []; split; [reflexivity|constructor]|].
  simpl. destruct (isspace c) eqn:Hc.
  - exists (c :: blanks). split; [simpl; rewrite <- Ht; reflexivity|].
    constructor; assumption.
  - exists []. split; [reflexivity|constructor].
Qed.

Lemma lstrip_head (t : list N) (c : N) :
  head (lstrip t) = Some c -> isspace c = false.
Proof.
  induction t as [|c' t IH]; simpl; [discriminate|].
  destruct (isspace c') eqn:Hc; [exact IH|].
  simpl. intros [= <-]. exact Hc.
Qed.

Lemma lstrip_fixed (t : list N) :
  (forall c, head t = Some c -> isspace c = false) -> lstrip t = t.
Proof.
  destruct t as [|c t]; [reflexivity|]. intros H. simpl.
  rewrite (H c eq_refl). reflexivity.
Qed.

Lemma rstrip_prefix (t : list N) :
  exists blanks, t = rstrip t ++ blanks /\ Forall (fun c => isspace c = true) blanks.
Proof.
  unfold rstrip. destruct (lstrip_suffix (reverse t)) as (blanks & Ht & Hb).
  exists (reverse blanks). split.
  - rewrite <- reverse_app, <- Ht, reverse_involutive. reflexivity.
  - apply Forall_reverse. exact Hb.
Qed.

Lemma rstrip_last (t : list N) (c : N) :
  last (rstrip t) = Some c -> isspace c = false.
Proof. unfold rstrip. rewrite last_reverse. apply lstrip_head. Qed.

Lemma rstrip_fixed (t : list N) :
  (forall c, last t = Some c -> isspace c = false) -> rstrip t = t.
Proof.
  intros H. unfold rstrip. rewrite lstrip_fixed.
  - apply reverse_involutive.
  - intros c. rewrite head_reverse. apply H.
Qed.

Lemma rstrip_head (t : list N) (c : N) :
  head (rstrip t) = Some c -> head t = Some c.
Proof.
  destruct (rstrip_prefix t) as (blanks & Ht & _). intros Hc.
  rewrite Ht. destruct (rstrip t); [discriminate|exact Hc].
Qed.

Lemma strip_ends (t : list N) (c : N) :
  head (strip t) = Some c \/ last (strip t) = Some c -> isspace c = false.
Proof.
  unfold strip. intros [Hc|Hc].
  - apply rstrip_head in Hc. exact (lstrip_head _ _ Hc).
  - exact (rstrip_last _ _ Hc).
Qed.

Lemma strip_fixed (t : list N) :
  (forall c, head t = Some c \/ last t = Some c -> isspace c = false) ->
  strip t = t.
Proof.
  intros H. unfold strip. rewrite lstrip_fixed by (intros c Hc; apply H; left; exact Hc).
  apply rstrip_fixed. intros c Hc. apply H. right. exact Hc.
Qed.

Lemma strip_sublist (t : list N) : sublist (strip t) t.
Proof.
  unfold strip.
  destruct (lstrip_suffix t) as (b1 & H1 & _).
  destruct (rstrip_prefix (lstrip t)) as (b2 & H2 & _).
  rewrite H1 at 2. rewrite H2 at 2.
  apply sublist_inserts_l, sublist_inserts_r. reflexivity.
Qed.

Lemma remove_forbidden_sublist (t : list N) : sublist (remove_forbidden t) t.
Proof.
  induction t as [|c t IH]; simpl; [constructor|].
  destruct (negb (forbidden c)); [apply sublist_skip|apply sublist_cons]; exact IH.
Qed.

Lemma remove_forbidden_clean (t : list N) :
  Forall (fun c => forbidden c = false) (remove_forbidden t).
Proof.
  induction t as [|c t IH]; simpl; [constructor|].
  destruct (forbidden c) eqn:Hc; simpl; [exact IH|].
  constructor; assumption.
Qed.

Lemma remove_forbidden_fixed (t : list N) :
  Forall (fun c => forbidden c = false) t -> remove_forbidden t = t.
Proof.
  unfold remove_forbidden.
  induction 1 as [|c t Hc _ IH]; simpl; [reflexivity|].
  rewrite Hc. simpl. f_equal. exact IH.
Qed.

Lemma strip_clean (t : list N) :
  Forall (fun c => forbidden c = false) t ->
  Forall (fun c => forbidden c = false) (strip t).
Proof.
  intros H. pose proof (strip_sublist t) as Hsub.
  induction Hsub as [|c l1 l2 _ IH|c l1 l2 _ IH]; [constructor| |].
  - apply Forall_cons in H as [Hc H]. constructor; [exact Hc|exact (IH H)].
  - apply Forall_cons in H as [_ H]. exact (IH H).
Qed.

(** X22. What [safe_title] gives: the title with characters taken out
    and none added or moved, in which none of the nine characters of the
    pattern is left and which neither starts nor ends with a blank. *)
Theorem safe_title_is_safe title :
  sublist (safe_title title) title /\
  Forall (fun c => forbidden c = false) (safe_title title) /\
  (forall c, head (safe_title title) = Some c \/ last (safe_title title) = Some c ->
             isspace c = false).
Proof.
  unfold safe_title. split; [|split].
  - etransitivity; [apply strip_sublist|apply remove_forbidden_sublist].
  - apply strip_clean, remove_forbidden_clean.
  - apply strip_ends.
Qed.

(** X23. [safe_title] is idempotent: a safe title is its own safe
    title. *)
Theorem safe_title_idempotent title :
  safe_title (safe_title title) = safe_title title.
Proof.
  unfold safe_title.
  rewrite (remove_forbidden_fixed (strip (remove_forbidden title)))
    by apply strip_clean, remove_forbidden_clean.
  apply strip_fixed, strip_ends.
Qed.

Lemma lstrip_blanks (t : list N) :
  Forall (fun c => isspace c = true) t -> lstrip t = [].
Proof. induction 1 as [|c t Hc _ IH]; simpl; [reflexivity|]. rewrite Hc. exact IH. Qed.

Lemma lstrip_nil_blanks (t : list N) :
  lstrip t = [] -> Forall (fun c => isspace c = true) t.
Proof.
  intros H. destruct (lstrip_suffix t) as (blanks & Ht & Hb).
  rewrite H, app_nil_r in Ht. subst t. exact Hb.
Qed.

Lemma strip_nil (t : list N) :
  strip t = [] <-> Forall (fun c => isspace c = true) t.
Proof.
  unfold strip, rstrip. split.
  - intros H. apply (f_equal reverse) in H.
    rewrite reverse_involutive in H. change (reverse []) with (@nil N) in H.
    apply lstrip_nil_blanks in H. rewrite Forall_reverse in H.
    destruct (lstrip t) as [|c u] eqn:Hu; [exact (lstrip_nil_blanks t Hu)|].
    exfalso. apply Forall_cons in H as [Hc _].
    assert (Hh : head (lstrip t) = Some c) by (rewrite Hu; reflexivity).
    apply lstrip_head in Hh. congruence.
  - intros H. rewrite (lstrip_blanks t H). reflexivity.
Qed.

Lemma remove_forbidden_blank (t : list N) :
  Forall (fun c => isspace c = true) (remove_forbidden t) <->
  Forall (fun c => forbidden c || isspace c = true) t.
Proof.
  unfold remove_forbidden.
  induction t as [|c t IH]; simpl; [split; constructor|].
  destruct (forbidden c) eqn:Hc; simpl.
  - rewrite IH. split.
    + intros H. constructor; [rewrite Hc; reflexivity|exact H].
    + intros H. apply Forall_cons in H as [_ H]. exact H.
  - split.
    + intros H. apply Forall_cons in H as [Hb H].
      constructor; [rewrite Hc; exact Hb|apply IH, H].
    + intros H. apply Forall_cons in H as [Hb H]. rewrite Hc in Hb.
      constructor; [exact Hb|apply IH, H].
Qed.

(** X24. [safe_title] can be empty, and is exactly when the title is made
    of blanks and characters of the pattern only (the empty title
    included). *)
Theorem safe_title_empty_iff title :
  safe_title title = [] <->
  Forall (fun c => forbidden c || isspace c = true) title.
Proof.
  unfold safe_title. rewrite strip_nil. apply remove_forbidden_blank.
Qed.

(** X25. The characters of the pattern do not count: two titles that
    differ by one of them, wherever it stands, get the same safe title. *)
Theorem safe_title_drops_forbidden pre c post :
  forbidden c = true ->
  safe_title (pre ++ c :: post) = safe_title (pre ++ post).
Proof.
  intros Hc. unfold safe_title, remove_forbidden.
  rewrite !List.filter_app. simpl. rewrite Hc. reflexivity.
Qed.

(** *** File names of images *)

Lemma pretty_N_char_digit (m : N) :
  (m < 10)%N ->
  is_digit (pretty_N_char m) = true /\ digit_value (pretty_N_char m) = m.
Proof.
  intros Hm.
  assert (Hcases : (m = 0 \/ m = 1 \/ m = 2 \/ m = 3 \/ m = 4 \/ m = 5 \/ m = 6
                    \/ m = 7 \/ m = 8 \/ m = 9)%N) by lia.
  repeat (destruct Hcases as [->|Hcases]; [split; reflexivity|]).
  subst m. split; reflexivity.
Qed.

Lemma pretty_N_go_app (x : N) (s t : string) :
  pretty_N_go x s +:+ t = pretty_N_go x (s +:+ t).
Proof.
  revert s. induction (N.lt_wf_0 x) as [x _ IH]. intros s.
  destruct (N.eq_dec x 0%N) as [->|Hx].
  - rewrite !pretty_N_go_0. reflexivity.
  - rewrite (pretty_N_go_step x s), (pretty_N_go_step x (s +:+ t)) by lia.
    rewrite IH by (apply N.div_lt; lia). reflexivity.
Qed.

Lemma read_digits_pretty_go (x : N) (s : string) :
  read_digits 0 (pretty_N_go x s) = read_digits x s.
Proof.
  revert s. induction (N.lt_wf_0 x) as [x _ IH]. intros s.
  destruct (N.eq_dec x 0%N) as [->|Hx].
  - rewrite pretty_N_go_0. reflexivity.
  - rewrite pretty_N_go_step by lia.
    rewrite IH by (apply N.div_lt; lia).
    destruct (pretty_N_char_digit (x mod 10)) as [Hd Hv];
      [apply N.mod_lt; lia|].
    cbn [read_digits]. rewrite Hd, Hv.
    f_equal. pose proof (N.div_mod x 10). lia.
Qed.

(** The digits of [n] followed by something that is not a digit read
    back as [n]. *)
Lemma read_digits_pretty (n : N) (c : ascii) (rest : string) :
  is_digit c = false ->
  read_digits 0 (pretty n +:+ String c rest) = n.
Proof.
  intros Hc. unfold pretty, pretty_N. case_decide as Hn.
  - subst n. simpl. rewrite Hc. reflexivity.
  - rewrite pretty_N_go_app, read_digits_pretty_go. simpl. rewrite Hc. reflexivity.
Qed.

Lemma read_digits_zeros (k : nat) (s : string) :
  read_digits 0 (zeros k +:+ s) = read_digits 0 s.
Proof. induction k as [|k IH]; [reflexivity|]. simpl. exact IH. Qed.

Lemma app_assoc_string (a b c : string) : (a +:+ b) +:+ c = a +:+ (b +:+ c).
Proof.
  induction a as [|x a IH]; [reflexivity|].
  change (String x ((a +:+ b) +:+ c) = String x (a +:+ b +:+ c)).
  f_equal. exact IH.
Qed.

Lemma read_digits_zfill (w : nat) (n : N) (c : ascii) (rest : string) :
  is_digit c = false ->
  read_digits 0 (zfill w (pretty n) +:+ String c rest) = n.
Proof.
  intros Hc. unfold zfill.
  rewrite app_assoc_string, read_digits_zeros. apply read_digits_pretty, Hc.
Qed.

(** Padded digits do not start with the sign. *)
Lemma zfill_pretty_no_dash (w : nat) (n : N) (c : ascii) (rest tail : string) :
  c <> "-"%char ->
  zfill w (pretty n) +:+ String c rest <> String "-" tail.
Proof.
  intros Hc. unfold zfill.
  destruct (w - String.length (pretty n))%nat as [|k]; [|discriminate].
  change (zeros 0 +:+ pretty n) with (pretty n).
  unfold pretty, pretty_N. case_decide as Hn; [discriminate|].
  rewrite pretty_N_go_app.
  apply (pretty_N_go_ne_dash n _ tail).
  change ("" +:+ String c rest) with (String c rest).
  change ("-" +:+ tail) with (String "-" tail).
  intros [= Heq _]. exact (Hc Heq).
Qed.

Lemma read_index_digits (s : string) (n : N) :
  read_digits 0 s = n -> (forall tail, s <> String "-" tail) ->
  read_index s = Z.of_N n.
Proof.
  intros Hread Hdash. destruct s as [|c tail]; simpl in *.
  - subst n. reflexivity.
  - destruct (Ascii.eqb c "-") eqn:Hc.
    + apply Ascii.eqb_eq in Hc. subst c. destruct (Hdash tail). reflexivity.
    + rewrite Hread. reflexivity.
Qed.

Lemma read_index_format (i : Z) :
  read_index (format_03d i +:+ ".jpg") = i.
Proof.
  unfold format_03d. destruct (i <? 0) eqn:Hi.
  - apply Z.ltb_lt in Hi.
    change (("-" +:+ zfill 2 (pretty (Z.to_N (- i)))) +:+ ".jpg")
      with (String "-" (zfill 2 (pretty (Z.to_N (- i))) +:+ ".jpg")).
    cbn [read_index]. change (Ascii.eqb "-" "-") with true. cbv iota.
    rewrite read_digits_zfill by reflexivity. lia.
  - apply Z.ltb_ge in Hi.
    rewrite (read_index_digits _ (Z.to_N i)).
    + lia.
    + apply read_digits_zfill. reflexivity.
    + intros tail. apply zfill_pretty_no_dash. discriminate.
Qed.

(** X26. Images built without a file name get one from their index, and
    two of them with different indexes get different names (negative
    indexes and indexes of more than three digits included): no page
    overwrites another. *)
Theorem default_filenames_differ i j url_i url_j :
  i <> j ->
  Image.filename (Image.new i url_i "") <> Image.filename (Image.new j url_j "").
Proof.
  unfold Image.new, Image.__post_init__. simpl. intros Hij Heq. apply Hij.
  rewrite <- (read_index_format i), <- (read_index_format j), Heq. reflexivity.
Qed.

(** *** Tasks of a chapter *)

Lemma to_download_tasks_loop joinpath (ch : Chapter.t) (save_dir : string)
    (images : list Image.t) (acc : list DownloadTask) :
  fold_left (fun tasks image => tasks ++ [Chapter.task_of joinpath ch save_dir image])
    images acc
  = acc ++ map (Chapter.task_of joinpath ch save_dir) images.
Proof.
  revert acc. induction images as [|im images IH]; intros acc; simpl.
  - rewrite app_nil_r. reflexivity.
  - rewrite IH, <- app_assoc. reflexivity.
Qed.

(** X27. [Chapter.to_download_tasks] and [Image.to_task] agree: the list
    has one task per image, in the order of the images, and each is the
    task [to_task] builds for its image from the chapter's headers and
    cookies with the chapter's url as referer. *)
Theorem to_download_tasks_is_to_task_per_image joinpath ch save_dir :
  Chapter.to_download_tasks joinpath ch save_dir
  = map (fun image =>
           Image.to_task joinpath image save_dir
             (Some (Chapter.headers ch)) (Some (Chapter.cookies ch))
             (Chapter.url ch))
        (Chapter.images ch).
Proof.
  unfold Chapter.to_download_tasks. rewrite to_download_tasks_loop. reflexivity.
Qed.

(** X28. What is sent for a page of a chapter: when the chapter's url is
    not empty and [urlparse] accepts it, the headers of every task of
    [to_download_tasks] carry the chapter's url as [Referer] and its
    scheme and host as [Origin], whatever the chapter's own headers say
    under these two keys; every other key is the chapter's header, or else
    the engine's default. *)
Theorem chapter_tasks_send_chapter_referer urlparse dl joinpath ch save_dir parsed task :
  Chapter.url ch <> "" ->
  urlparse (Chapter.url ch) = Returns parsed ->
  task ∈ Chapter.to_download_tasks joinpath ch save_dir ->
  exists hs,
    _build_headers urlparse dl task = Returns hs /\
    hs !! "Referer" = Some (Chapter.url ch) /\
    hs !! "Origin" = Some (scheme parsed +:+ "://" +:+ netloc parsed) /\
    forall k, k <> "Referer" -> k <> "Origin" ->
      hs !! k = (Chapter.headers ch ∪ default_headers dl) !! k.
Proof.
  intros Hurl Hparse Htask.
  unfold Chapter.to_download_tasks in Htask.
  rewrite to_download_tasks_loop in Htask. simpl in Htask.
  apply list_elem_of_fmap in Htask as (image & -> & _).
  unfold _build_headers, Chapter.task_of, DownloadTask_new. simpl.
  rewrite bool_decide_eq_false_2 by exact Hurl.
  rewrite Hparse. eexists. split; [reflexivity|].
  split; [rewrite lookup_insert_ne by discriminate; apply lookup_insert_eq|].
  split; [apply lookup_insert_eq|].
  intros k Hk1 Hk2. rewrite !lookup_insert_ne by congruence. reflexivity.
Qed.

(** *** More theorems at concrete inputs *)

(** A batch of two on a fresh engine: one task is served, the other finds
    every connection broken. *)
Lemma download_tasks_accounts_for_every_task_witness :
  let s := fresh_state (engine 3) in
  let jobs := [(world_status 200, plain_task); (world_offline, plain_task)] in
  exists d f s',
    download_tasks urlparse_ascii jobs s = (Ret (d, f), s') /\
    0 <= d /\ 0 <= f /\ d + f = 2 /\
    d <= Z.of_nat (on_success_calls s') - Z.of_nat (on_success_calls s) /\
    same_config (self s) (self s') /\
    _semaphore (self s') = _semaphore (self s).
Proof.
  intros s jobs.
  apply (download_tasks_accounts_for_every_task urlparse_ascii jobs s).
  reflexivity.
Defined.

(** An engine built with [max_retries = 0]. *)
Lemma download_task_without_retries_witness :
  let s := fresh_state (engine 0) in
  let err := TaskDownloadError.__init__ (url plain_task) [] in
  let r := download_task urlparse_ascii (world_status 200) plain_task s in
  attempts_made (snd r) = attempts_made s /\
  fst r = after_on_error plain_task err /\
  reported (snd r) = reported s ++ [err] /\
  on_success_calls (snd r) = on_success_calls s /\
  __total_failed (self (snd r)) = __total_failed (self s) + 1.
Proof.
  intros s err r.
  apply (download_task_without_retries urlparse_ascii (world_status 200) plain_task s).
  - reflexivity.
  - discriminate.
  - reflexivity.
Defined.

(** A server that answers 429 to every request, three attempts. *)
Lemma rate_limited_attempts_are_recorded_witness :
  let s := fresh_state (engine 3) in
  let err := TaskDownloadError.__init__ (url plain_task)
               (map (fun i : nat => status_error 429) (seq 0 3)) in
  let r := download_task urlparse_ascii (world_status 429) plain_task s in
  attempts_made (snd r) = (attempts_made s + 3)%nat /\
  fst r = after_on_error plain_task err /\
  reported (snd r) = reported s ++ [err] /\
  on_success_calls (snd r) = on_success_calls s /\
  TaskDownloadError.attempts err = 3 /\
  __total_failed (self (snd r)) = __total_failed (self s) + 1.
Proof.
  intros s err r.
  apply (rate_limited_attempts_are_recorded urlparse_ascii (world_status 429)
           plain_task (fun _ => 429) s).
  - reflexivity.
  - reflexivity.
  - intros i _. split; [|left; reflexivity].
    eexists. split; reflexivity.
Defined.

(** Two tasks and one slot, after the first coroutine has entered. *)
Lemma event_loop_never_deadlocks_witness :
  let s := fresh_state (engine 3) in
  let s1 := set_self (fun dl => add_semaphore (-2) dl) s in
  let jobs := [(world_status 200, plain_task); (world_offline, plain_task)] in
  let l := {| EventLoop.shared :=
                push_event EvAcquire (set_self (add_semaphore (-1)) s1);
              EventLoop.coroutines :=
                [EventLoop.Entered (world_status 200, plain_task);
                 EventLoop.Waiting (world_offline, plain_task)] |} in
  (exists l', EventLoop.step urlparse_ascii l l') \/
  Forall EventLoop.is_done (EventLoop.coroutines l).
Proof.
  intros s s1 jobs l.
  apply (event_loop_never_deadlocks urlparse_ascii s1 jobs l).
  - discriminate.
  - eapply rtc_l; [|apply rtc_refl].
    apply (EventLoop.step_enter urlparse_ascii (EventLoop.start s1 jobs) 0%nat
             (world_status 200, plain_task)); reflexivity.
Defined.

(** Three tasks on [ImageDownloader(max_concurrent=0)]. *)
Lemma event_loop_without_slot_cannot_start_witness :
  let jobs := [(world_status 200, plain_task); (world_status 404, plain_task);
               (world_offline, plain_task)] in
  ~ exists l', EventLoop.step urlparse_ascii
                 (EventLoop.start (fresh_state closed_engine) jobs) l'.
Proof.
  intros jobs.
  apply (event_loop_without_slot_cannot_start urlparse_ascii (Some (1%Q, 3%Q)) 3 60
           None closed_engine jobs (fresh_state closed_engine)); reflexivity.
Defined.

(** The first attempt times out, the second goes through. *)
Lemma download_task_succeeds_after_retries_witness :
  let s := fresh_state (engine 3) in
  let r := download_task urlparse_ascii world_flaky plain_task s in
  fst r = Ret true /\ attempts_made (snd r) = 2%nat.
Proof.
  intros s r.
  destruct (download_task_succeeds_after_retries urlparse_ascii world_flaky plain_task
              (fun _ => mkExc TimeoutError "timed out") 1 s)
    as (Hres & Hatt & _).
  - reflexivity.
  - reflexivity.
  - reflexivity.
  - intros i Hi. assert (i = 0%nat) as -> by lia.
    split; [eapply raises_in_get; reflexivity|reflexivity].
  - do 2 eexists. repeat split; reflexivity.
  - split; [exact Hres|exact Hatt].
Defined.

(** A colon in the middle of a title. *)
Lemma safe_title_drops_forbidden_witness :
  safe_title ([82; 101] ++ 58 :: [90; 101])%N = safe_title ([82; 101] ++ [90; 101])%N.
Proof.
  apply (safe_title_drops_forbidden [82; 101]%N 58%N [90; 101]%N). reflexivity.
Defined.

(** Pages 7 and 12. *)
Lemma default_filenames_differ_witness :
  Image.filename (Image.new 7 "https://cdn.example.com/a" "")
    <> Image.filename (Image.new 12 "https://cdn.example.com/b" "").
Proof.
  apply (default_filenames_differ 7 12). discriminate.
Defined.

(** A chapter whose own headers try to set the referer. *)
Lemma chapter_tasks_send_chapter_referer_witness :
  let joinpath := fun d f : string => d +:+ "/" +:+ f in
  let ch := Chapter.mk "1" [67; 104; 49]%N "https://truyen.example.com/ch-1"
              [Image.new 1 "https://cdn.example.com/1.jpg" ""]
              {["Referer" := "https://elsewhere.example.org/"]} ∅ in
  let task := DownloadTask_new "https://cdn.example.com/1.jpg" "out/ch1/001.jpg"
                {["Referer" := "https://elsewhere.example.org/"]} ∅
                "https://truyen.example.com/ch-1" in
  exists hs,
    _build_headers urlparse_ascii (engine 3) task = Returns hs /\
    hs !! "Referer" = Some "https://truyen.example.com/ch-1" /\
    hs !! "Origin" = Some "https://truyen.example.com" /\
    forall k, k <> "Referer" -> k <> "Origin" ->
      hs !! k = (Chapter.headers ch ∪ default_headers (engine 3)) !! k.
Proof.
  intros joinpath ch task.
  apply (chapter_tasks_send_chapter_referer urlparse_ascii (engine 3) joinpath ch
           "out/ch1" {| scheme := "https"; netloc := "truyen.example.com" |} task).
  - discriminate.
  - reflexivity.
  - apply list_elem_of_here.
Defined.
